(** * Sidetree: transaction store, fee rules and batch commit

    A shallow embedding of the transaction store of the Sidetree node,
    [lib/MongoDbTransactionStore.ts], over a model of the MongoDB driver
    calls it makes, with the properties of the anchoring pipeline that
    concern it.  The fee manager and the batch writer, whose sources are not
    at hand, are modelled from the specification and set against the
    expectations of [tests/core/FeeManager.spec.ts] and
    [tests/core/RaceConditionInBatchWriterDemo.spec.ts].

    Conventions of the embedding.
    - JavaScript numbers are integers of [Z]: every number the store handles
      is a millisecond timestamp, a counter or a ledger ordinal, all far below
      2^53, where double arithmetic is exact.  [NaN], which arithmetic on a
      missing field produces, is kept as a value of its own.
    - A MongoDB document is a finite map from field names to values.  The
      driver generated [_id] field is left out: no query of the store reads it.
    - The store is taken after [initialize()]: both collections exist, each
      with its unique index on [(transactionTime, transactionNumber)].
    - Each [async] method runs to completion: its [await] points are the
      storage calls, taken one after the other.  Any storage call may be
      rejected by the driver; [Date.now()] is read from the environment.
    - [console.info] calls are dropped.

    The definitions come first: the MongoDB model, the world the store runs
    in, the store, the fee manager, the batch writer, the notions the
    properties are stated with and sample data.  The facts follow. *)

From Stdlib Require Import ZArith String List Lia.
From stdpp Require Import base option list sorting gmap strings.

Local Open Scope string_scope.
Local Open Scope list_scope.
Local Open Scope Z_scope.

(** ** MongoDB values, documents and queries *)

Module Mongo.

Inductive value :=
  | VNum (z : Z)
  | VNaN
  | VStr (s : string).

Global Instance value_eq_dec : EqDecision value.
Proof. solve_decision. Defined.

(** A document, as [insertOne] stores it and [find] returns it. *)
Abbreviation document := (gmap string value).

(** The error objects a storage call rejects with.  [code] is the driver's
    numeric error code, absent on errors that are not MongoDB errors. *)
Record MongoError := mkError { code : option Z; message : string }.

Global Instance MongoError_eq_dec : EqDecision MongoError.
Proof. solve_decision. Defined.

(** Error code of a duplicate key on a unique index. *)
Definition duplicateKeyCode : Z := 11000.

Definition duplicateKeyError : MongoError :=
  mkError (Some duplicateKeyCode) "E11000 duplicate key error".

(** *** Query filters

    The three shapes the store uses: [{ f: v }], [{ f: { $lte: z } }] and
    [{ f: { $gt: z } }].  A comparison operator matches numbers only; a
    missing field, [NaN] or a string never satisfies [$lte] or [$gt]. *)

Inductive condition :=
  | CEq (v : value)
  | CLte (z : Z)
  | CGt (z : Z).

Definition query := list (string * condition).

Definition holds (c : condition) (f : option value) : bool :=
  match c, f with
  | CEq v, Some w => bool_decide (v = w)
  | CLte z, Some (VNum x) => x <=? z
  | CGt z, Some (VNum x) => z <? x
  | _, _ => false
  end.

Definition matches (q : query) (d : document) : bool :=
  forallb (fun kc => holds (snd kc) (d !! fst kc)) q.

(** *** Sort order

    BSON comparison order restricted to the values at hand: a missing field
    sorts first, then numbers with [NaN] below every other number, then
    strings, compared byte by byte. *)

Definition bson_rank (f : option value) : Z :=
  match f with
  | None => 0
  | Some VNaN => 1
  | Some (VNum _) => 2
  | Some (VStr _) => 3
  end.

Definition field_compare (a b : option value) : comparison :=
  match a, b with
  | Some (VNum x), Some (VNum y) => Z.compare x y
  | Some (VStr x), Some (VStr y) => String.compare x y
  | _, _ => Z.compare (bson_rank a) (bson_rank b)
  end.

(** [sort({ f1: 1, f2: 1, ... })]: ascending on the listed fields, the
    earlier field first. *)
Fixpoint sort_compare (spec : list string) (d1 d2 : document) : comparison :=
  match spec with
  | [] => Eq
  | k :: ks =>
      match field_compare (d1 !! k) (d2 !! k) with
      | Eq => sort_compare ks d1 d2
      | c => c
      end
  end.

Definition sort_le (spec : list string) (d1 d2 : document) : Prop :=
  sort_compare spec d1 d2 <> Gt.

Global Instance sort_le_dec spec d1 d2 : Decision (sort_le spec d1 d2).
Proof. unfold sort_le. solve_decision. Defined.

Definition sort_docs (spec : list string) (l : list document) : list document :=
  merge_sort (sort_le spec) l.

(** *** Limit

    [cursor.limit(n)]: [n = 0] means no limit, and a negative [n] asks for
    [|n|] documents in a single batch. *)
Definition limit_docs (n : Z) (l : list document) : list document :=
  if n =? 0 then l else take (Z.abs_nat n) l.

(** *** Collections

    Both collections of the store carry a unique index on
    [(transactionTime, transactionNumber)], created with the collection. *)

Definition index_key (d : document) : option value * option value :=
  (d !! "transactionTime", d !! "transactionNumber").

Definition same_key (d1 d2 : document) : bool :=
  bool_decide (index_key d1 = index_key d2).

(** [insertOne]: rejected with a duplicate key error when a stored document
    has the same index key, appended otherwise. *)
Definition insert_doc (d : document) (l : list document)
  : MongoError + list document :=
  if existsb (same_key d) l then inl duplicateKeyError else inr (l ++ [d]).

(** [updateOne(q, { $set: fields })]: the first document matching [q] gets
    the fields set, the others stay. *)
Definition set_fields (fields : list (string * value)) (d : document) : document :=
  fold_left (fun acc kv => <[fst kv := snd kv]> acc) fields d.

Fixpoint update_first (q : query) (fields : list (string * value))
    (l : list document) : list document :=
  match l with
  | [] => []
  | d :: l' =>
      if matches q d then set_fields fields d :: l'
      else d :: update_first q fields l'
  end.

(** [deleteOne(q)] and [deleteMany(q)]. *)
Fixpoint delete_first (q : query) (l : list document) : list document :=
  match l with
  | [] => []
  | d :: l' => if matches q d then l' else d :: delete_first q l'
  end.

Definition delete_all (q : query) (l : list document) : list document :=
  List.filter (fun d => negb (matches q d)) l.

End Mongo.

(** ** The world the store runs in: database, clock and storage faults *)

Module World.
Import Mongo.

(** What the store cannot control: the reading of each successive
    [Date.now()] call and, for each successive storage call, whether the
    driver rejects it and with what error. *)
Record Env := mkEnv {
  now_at : nat -> Z;
  fault_at : nat -> option MongoError
}.

(** The two collections, with the number of clock readings and of storage
    calls made so far. *)
Record State := mkState {
  transactionCollection : list document;
  unresolvableTransactionCollection : list document;
  ticks : nat;
  ops : nat
}.

Inductive Outcome (A : Type) :=
  | Returned (a : A) (s : State)
  | Thrown (e : MongoError) (s : State).
Arguments Returned {A} a s.
Arguments Thrown {A} e s.

Definition final_state {A} (o : Outcome A) : State :=
  match o with Returned _ s => s | Thrown _ s => s end.

(** Computations of the store: state passing with exceptions. *)
Definition M (A : Type) : Type := Env -> State -> Outcome A.

Definition ret {A} (a : A) : M A := fun _ s => Returned a s.

Definition bind {A B} (m : M A) (k : A -> M B) : M B :=
  fun env s =>
    match m env s with
    | Returned a s' => k a env s'
    | Thrown e s' => Thrown e s'
    end.

Definition throw {A} (e : MongoError) : M A := fun _ s => Thrown e s.

(** [try { m } catch (error) { handler error }] *)
Definition try_catch {A} (m : M A) (handler : MongoError -> M A) : M A :=
  fun env s =>
    match m env s with
    | Returned a s' => Returned a s'
    | Thrown e s' => handler e env s'
    end.

Declare Scope store_scope.
Delimit Scope store_scope with store.
Notation "x <- m ;; k" := (bind m (fun x => k))
  (at level 100, m at next level, right associativity) : store_scope.
Notation "m ;;; k" := (bind m (fun _ => k))
  (at level 100, right associativity) : store_scope.
Local Open Scope store_scope.

(** [Date.now()] *)
Definition Date_now : M Z :=
  fun env s =>
    Returned (now_at env (ticks s))
      (mkState (transactionCollection s) (unresolvableTransactionCollection s)
               (S (ticks s)) (ops s)).

(** The two collection handles of the store. *)
Inductive handle := TransactionCollection | UnresolvableTransactionCollection.

Definition get_docs (h : handle) (s : State) : list document :=
  match h with
  | TransactionCollection => transactionCollection s
  | UnresolvableTransactionCollection => unresolvableTransactionCollection s
  end.

Definition set_docs (h : handle) (l : list document) (s : State) : State :=
  match h with
  | TransactionCollection =>
      mkState l (unresolvableTransactionCollection s) (ticks s) (ops s)
  | UnresolvableTransactionCollection =>
      mkState (transactionCollection s) l (ticks s) (ops s)
  end.

Definition count_op (s : State) : State :=
  mkState (transactionCollection s) (unresolvableTransactionCollection s)
          (ticks s) (S (ops s)).

(** One awaited driver call: rejected with the fault the environment has for
    it, without effect on the documents, or carried out by [f]. *)
Definition storage {A} (f : State -> Outcome A) : M A :=
  fun env s =>
    match fault_at env (ops s) with
    | Some e => Thrown e (count_op s)
    | None => f (count_op s)
    end.

Definition insertOne (h : handle) (d : document) : M unit :=
  storage (fun s =>
    match insert_doc d (get_docs h s) with
    | inl e => Thrown e s
    | inr l => Returned tt (set_docs h l s)
    end).

Definition updateOne (h : handle) (q : query) (fields : list (string * value))
  : M unit :=
  storage (fun s => Returned tt (set_docs h (update_first q fields (get_docs h s)) s)).

Definition deleteOne (h : handle) (q : query) : M unit :=
  storage (fun s => Returned tt (set_docs h (delete_first q (get_docs h s)) s)).

Definition deleteMany (h : handle) (q : query) : M unit :=
  storage (fun s => Returned tt (set_docs h (delete_all q (get_docs h s)) s)).

Definition drop (h : handle) : M unit :=
  storage (fun s => Returned tt (set_docs h [] s)).

(** A driver call that changes no document: listing the collections,
    creating an empty collection in place of a dropped one, creating an
    index. *)
Definition administrative : M unit :=
  storage (fun s => Returned tt s).

(** Cursors: [find(q)], then optionally [sort] and [limit], read out by
    [toArray()]. *)
Record cursor := mkCursor {
  c_from : handle;
  c_filter : query;
  c_sort : option (list string);
  c_limit : option Z
}.

Definition find (h : handle) (q : query) : cursor := mkCursor h q None None.

Definition sort (spec : list string) (c : cursor) : cursor :=
  mkCursor (c_from c) (c_filter c) (Some spec) (c_limit c).

Definition limit (n : Z) (c : cursor) : cursor :=
  mkCursor (c_from c) (c_filter c) (c_sort c) (Some n).

Definition read_cursor (c : cursor) (s : State) : list document :=
  let found := List.filter (matches (c_filter c)) (get_docs (c_from c) s) in
  let sorted := match c_sort c with Some spec => sort_docs spec found | None => found end in
  match c_limit c with Some n => limit_docs n sorted | None => sorted end.

Definition toArray (c : cursor) : M (list document) :=
  storage (fun s => Returned (read_cursor c s) s).

End World.

(** ** The transaction store: [lib/MongoDbTransactionStore.ts] *)

Module MongoDbTransactionStore.
Import Mongo World.
Local Open Scope store_scope.

(** Modelled from the spec: the [Transaction] interface ([lib/Transaction.ts]
    is imported by the store but is not part of the sources at hand); the
    fields are those of the spec's data model. *)
Record Transaction := mkTransaction {
  transactionTime : Z;
  transactionNumber : Z;
  transactionTimeHash : string;
  anchorFileHash : string;
  transactionFeePaid : Z;
  normalizedTransactionFee : Z
}.

(** The object [insertOne(transaction)] receives: every field of the
    transaction. *)
Definition transaction_document (t : Transaction) : document :=
  <["transactionTime" := VNum (transactionTime t)]>
  (<["transactionNumber" := VNum (transactionNumber t)]>
  (<["transactionTimeHash" := VStr (transactionTimeHash t)]>
  (<["anchorFileHash" := VStr (anchorFileHash t)]>
  (<["transactionFeePaid" := VNum (transactionFeePaid t)]>
  (<["normalizedTransactionFee" := VNum (normalizedTransactionFee t)]> ∅))))).

(** The instance fields set by the constructor. *)
Record Self := mkSelf {
  exponentialDelayFactorInMilliseconds : Z;
  maximumUnresolvableTransactionReturnCount : Z
}.

Definition constructor (retryExponentialDelayFactor : option Z) : Self :=
  mkSelf
    (match retryExponentialDelayFactor with
     | Some factor => factor
     | None => 60000
     end)
    100.

(** *** Numbers read from and written to documents

    A number is an integer or [NaN] ([None]).  Reading a field that is
    missing gives [undefined], which arithmetic turns into [NaN]; the fields
    read this way are typed [number] by [IUnresolvableTransaction]. *)
Definition number := option Z.

Definition to_number (f : option value) : number :=
  match f with
  | Some (VNum z) => Some z
  | _ => None
  end.

Definition of_number (n : number) : value :=
  match n with
  | Some z => VNum z
  | None => VNaN
  end.

Definition js_add (a b : number) : number :=
  match a, b with Some x, Some y => Some (x + y) | _, _ => None end.

Definition js_mul (a b : number) : number :=
  match a, b with Some x, Some y => Some (x * y) | _, _ => None end.

(** [Math.pow(2, n)] for a retry counter [n].  A counter is never negative;
    the fractions that negative exponents give are outside the integers of
    the embedding, and the properties below are stated for [0 <= n]. *)
Definition js_pow2 (n : number) : number :=
  match n with Some x => Some (2 ^ x) | None => None end.

(** *** Methods *)

Definition createTransactionCollectionIfNotExist : M unit :=
  administrative ;;; administrative ;;; administrative.

Definition createUnresolvableTransactionCollectionIfNotExist : M unit :=
  administrative ;;; administrative ;;; administrative ;;; administrative.

(** Both collections are dropped and created again; a collection that was
    just dropped is absent, so each [create...IfNotExist] takes its creating
    branch (list the collections, create the collection, create its
    indexes) and yields an empty collection with the unique index. *)
Definition emptyCollections : M unit :=
  drop TransactionCollection ;;;
  drop UnresolvableTransactionCollection ;;;
  createUnresolvableTransactionCollectionIfNotExist ;;;
  createTransactionCollectionIfNotExist.

Definition addProcessedTransaction (transaction : Transaction) : M unit :=
  try_catch
    (insertOne TransactionCollection (transaction_document transaction))
    (fun error =>
       if bool_decide (code error <> Some 11000) then throw error else ret tt).

(** The loop of [getExponentiallySpacedTransactions]; [fuel] bounds the
    number of iterations.  [index] is at most [length all - 1] whenever the
    body runs, so [allTransactions[index]] is a stored entry. *)
Fixpoint spaced_loop (fuel : nat) (allTransactions : list document)
    (index distance : Z) (exponentiallySpacedTransactions : list document)
  : list document :=
  match fuel with
  | O => exponentiallySpacedTransactions
  | S fuel' =>
      if 0 <=? index then
        spaced_loop fuel' allTransactions (index - distance) (distance * 2)
          (exponentiallySpacedTransactions
             ++ option_list (allTransactions !! Z.to_nat index))
      else exponentiallySpacedTransactions
  end.

Definition getProcessedTransactions : M (list document) :=
  toArray (sort ["transactionTime"; "transactionNumber"]
             (find TransactionCollection [])).

Definition getUnresolvableTransactions : M (list document) :=
  toArray (sort ["transactionTime"; "transactionNumber"]
             (find UnresolvableTransactionCollection [])).

Definition getExponentiallySpacedTransactions : M (list document) :=
  allTransactions <-
    toArray (sort ["transactionTime"; "transactionNumber"]
               (find TransactionCollection [])) ;;
  ret (spaced_loop (S (length allTransactions)) allTransactions
         (Z.of_nat (length allTransactions) - 1) 1 []).

(** The filter [{ transactionTime, transactionNumber }]. *)
Definition by_key (time num : Z) : query :=
  [("transactionTime", CEq (VNum time)); ("transactionNumber", CEq (VNum num))].

(** The object literal [newUnresolvableTransaction]. *)
Definition newUnresolvableTransaction (transaction : Transaction)
    (firstFetchTime nextRetryTime : Z) : document :=
  <["transactionTime" := VNum (transactionTime transaction)]>
  (<["transactionNumber" := VNum (transactionNumber transaction)]>
  (<["anchorFileHash" := VStr (anchorFileHash transaction)]>
  (<["transactionTimeHash" := VStr (transactionTimeHash transaction)]>
  (<["firstFetchTime" := VNum firstFetchTime]>
  (<["retryAttempts" := VNum 0]>
  (<["nextRetryTime" := VNum nextRetryTime]> ∅)))))).

Definition recordUnresolvableTransactionFetchAttempt (self : Self)
    (transaction : Transaction) : M unit :=
  let q := by_key (transactionTime transaction) (transactionNumber transaction) in
  findResults <- toArray (find UnresolvableTransactionCollection q) ;;
  match head findResults with
  | None =>
      firstFetchTime <- Date_now ;;
      nextRetryTime <- Date_now ;;
      insertOne UnresolvableTransactionCollection
        (newUnresolvableTransaction transaction firstFetchTime nextRetryTime)
  | Some unresolvableTransaction =>
      let priorAttempts := to_number (unresolvableTransaction !! "retryAttempts") in
      let retryAttempts := js_add priorAttempts (Some 1) in
      let requiredElapsedTimeSinceFirstFetchBeforeNextRetry :=
        js_mul (js_pow2 priorAttempts)
               (Some (exponentialDelayFactorInMilliseconds self)) in
      let nextRetryTime :=
        js_add (to_number (unresolvableTransaction !! "firstFetchTime"))
               requiredElapsedTimeSinceFirstFetchBeforeNextRetry in
      updateOne UnresolvableTransactionCollection q
        [("retryAttempts", of_number retryAttempts);
         ("nextRetryTime", of_number nextRetryTime)]
  end.

Definition removeUnresolvableTransaction (transaction : Transaction) : M unit :=
  deleteOne UnresolvableTransactionCollection
    (by_key (transactionTime transaction) (transactionNumber transaction)).

Definition getUnresolvableTransactionsDueForRetry (self : Self)
    (maximumReturnCount : option Z) : M (list document) :=
  let returnCount :=
    match maximumReturnCount with
    | Some n => n
    | None => maximumUnresolvableTransactionReturnCount self
    end in
  now <- Date_now ;;
  toArray (limit returnCount
            (sort ["nextRetryTime"]
              (find UnresolvableTransactionCollection [("nextRetryTime", CLte now)]))).

Definition removeTransactionsLaterThan (transactionNumber : option Z) : M unit :=
  match transactionNumber with
  | None => emptyCollections
  | Some n =>
      deleteMany UnresolvableTransactionCollection [("transactionNumber", CGt n)] ;;;
      deleteMany TransactionCollection [("transactionNumber", CGt n)]
  end.

End MongoDbTransactionStore.

(** ** Fee computation and verification *)

Module FeeManager.

(** Modelled from the spec: the error codes of
    [lib/core/versions/latest/ErrorCode.ts], which is not part of the sources
    at hand; these are the codes the fee tests expect. *)
Inductive ErrorCode :=
  | OperationCountLessThanZero
  | TransactionFeePaidLessThanNormalizedFee
  | TransactionFeePaidInvalid.

(** [a / b] rounded up, for a positive [b]. *)
Definition ceil_div (a b : Z) : Z := - ((- a) / b).

Section Rule.

(** The protocol's quantization rule, which the spec leaves open: the fee
    for [operationCount] operations at [normalizedFeeRate], before it is
    floored at the rate. *)
Variable scaledFee : Z -> Z -> Z.

(** Modelled from the spec: the quantized fee of [FeeManager]
    ([lib/core/versions/latest/FeeManager.ts] is not part of the sources at
    hand), the scaled fee floored at the normalized rate. *)
Definition quantizedFee (normalizedFee numberOfOperations : Z) : Z :=
  Z.max (scaledFee normalizedFee numberOfOperations) normalizedFee.

(** Modelled from the spec: [computeTransactionFee], which the tests call
    [FeeManager.convertNormalizedFeeToTransactionFee].  It fails on a
    count that is not positive; otherwise the quantized fee is marked up
    by the percentage and rounded up to the fee unit. *)
Definition convertNormalizedFeeToTransactionFee
    (normalizedFee numberOfOperations feeMarkupPercentage : Z)
  : ErrorCode + Z :=
  if numberOfOperations <=? 0 then inl OperationCountLessThanZero
  else
    inr (ceil_div
           (quantizedFee normalizedFee numberOfOperations
              * (100 + feeMarkupPercentage)) 100).

(** Modelled from the spec: [verifyTransactionFee], which the tests call
    [FeeManager.verifyTransactionFeeAndThrowOnError].  The count is
    checked first, then the paid fee against the normalized rate, then
    against the fee recomputed by the rule above without markup. *)
Definition verifyTransactionFeeAndThrowOnError
    (transactionFeePaid numberOfOperations normalizedFee : Z)
  : ErrorCode + unit :=
  if numberOfOperations <=? 0 then inl OperationCountLessThanZero
  else if transactionFeePaid <? normalizedFee
  then inl TransactionFeePaidLessThanNormalizedFee
  else
    match convertNormalizedFeeToTransactionFee normalizedFee numberOfOperations 0 with
    | inl e => inl e
    | inr expectedFee =>
        if transactionFeePaid <? expectedFee then inl TransactionFeePaidInvalid
        else inr tt
    end.

End Rule.

(** A rule that satisfies every expectation of [FeeManager.spec.ts]: one
    hundredth of the normalized rate per operation. *)
Definition one_percent_per_operation (normalizedFee numberOfOperations : Z) : Z :=
  normalizedFee * numberOfOperations / 100.

End FeeManager.

(** ** The batching cycle and the operation queue *)

Module BatchWriter.

















End BatchWriter.

(** ** Notions the properties are stated with *)

Module Notions.
Import Mongo World MongoDbTransactionStore.
Local Open Scope store_scope.

(** Number of samples over [n] entries: the number of powers of two that do
    not exceed [n]. *)
Definition sample_count (n : nat) : nat :=
  match n with
  | O => O
  | S _ => S (Nat.log2 n)
  end.

Definition in_range (n : nat) (j : nat) : bool := (2 ^ j <=? n)%nat.

(** The invariant the unique index keeps: no two stored documents share
    [(transactionTime, transactionNumber)]. *)
Definition unique_keys (l : list document) : Prop :=
  NoDup (index_key <$> l).

(** The stored entries for the pair of [t]. *)
Definition entries_for (t : Transaction) (l : list document) : list document :=
  List.filter (same_key (transaction_document t)) l.

(** No storage call is rejected. *)
Definition fault_free (env : Env) : Prop := forall n, fault_at env n = None.

(** The unresolvable record of a transaction: the first document found for
    its [(transactionTime, transactionNumber)], if any. *)
Definition unresolvable_record (t : Transaction) (l : list document)
  : option document :=
  head (List.filter
          (matches (by_key (transactionTime t) (transactionNumber t))) l).

(** The [$set] of a repeated attempt on the record [u]. *)
Definition retry_fields (self : Self) (u : document) : list (string * value) :=
  [("retryAttempts", of_number (js_add (to_number (u !! "retryAttempts")) (Some 1)));
   ("nextRetryTime",
    of_number
      (js_add (to_number (u !! "firstFetchTime"))
         (js_mul (js_pow2 (to_number (u !! "retryAttempts")))
                 (Some (exponentialDelayFactorInMilliseconds self)))))].

(** The fields of a stored unresolvable record. *)
Definition unresolvable_fields : gset string :=
  {[ "transactionTime"; "transactionNumber"; "anchorFileHash";
     "transactionTimeHash"; "firstFetchTime"; "retryAttempts"; "nextRetryTime" ]}.

(** The unresolvable records due at [now], earliest retry time first. *)
Definition due_sorted (now : Z) (l : list document) : list document :=
  sort_docs ["nextRetryTime"]
    (List.filter (matches [("nextRetryTime", CLte now)]) l).

(** [d1] is to be retried no later than [d2]. *)
Definition retry_le (d1 d2 : document) : Prop :=
  forall z1 z2,
    d1 !! "nextRetryTime" = Some (VNum z1) ->
    d2 !! "nextRetryTime" = Some (VNum z2) ->
    z1 <= z2.

(** The documents [deleteMany({ transactionNumber: { $gt: n } })] keeps. *)
Definition not_later_than (n : Z) (l : list document) : list document :=
  delete_all [("transactionNumber", CGt n)] l.

(** The public methods of the store, as a caller invokes them. *)
Inductive call :=
  | AddProcessedTransaction (t : Transaction)
  | GetProcessedTransactions
  | GetExponentiallySpacedTransactions
  | RecordUnresolvableTransactionFetchAttempt (t : Transaction)
  | RemoveUnresolvableTransaction (t : Transaction)
  | GetUnresolvableTransactions
  | GetUnresolvableTransactionsDueForRetry (maximumReturnCount : option Z)
  | RemoveTransactionsLaterThan (transactionNumber : option Z)
  | EmptyCollections.

Definition discard {A} (m : M A) : M unit := _ <- m ;; ret tt.

Definition invoke (self : Self) (c : call) : M unit :=
  match c with
  | AddProcessedTransaction t => addProcessedTransaction t
  | GetProcessedTransactions => discard getProcessedTransactions
  | GetExponentiallySpacedTransactions => discard getExponentiallySpacedTransactions
  | RecordUnresolvableTransactionFetchAttempt t =>
      recordUnresolvableTransactionFetchAttempt self t
  | RemoveUnresolvableTransaction t => removeUnresolvableTransaction t
  | GetUnresolvableTransactions => discard getUnresolvableTransactions
  | GetUnresolvableTransactionsDueForRetry n =>
      discard (getUnresolvableTransactionsDueForRetry self n)
  | RemoveTransactionsLaterThan n => removeTransactionsLaterThan n
  | EmptyCollections => emptyCollections
  end.

(** The store after a call, whether the call returned or threw. *)
Definition after_call (self : Self) (env : Env) (s : State) (c : call) : State :=
  final_state (invoke self c env s).

Definition after_calls (self : Self) (env : Env) (calls : list call)
    (s : State) : State :=
  fold_left (after_call self env) calls s.

(** A property of the unresolvable collection that a computation keeps,
    whatever the environment does. *)
Definition keeps {A} (Q : list document -> Prop) (m : M A) : Prop :=
  forall env s,
    Q (unresolvableTransactionCollection s) ->
    Q (unresolvableTransactionCollection (final_state (m env s))).

(** The calls that leave the record of [t] in the store: every call but
    the removal of that record, a truncation below its transaction number,
    and a reset. *)
Definition spares (t : Transaction) (c : call) : bool :=
  match c with
  | RemoveUnresolvableTransaction t' =>
      negb ((transactionTime t' =? transactionTime t)
            && (transactionNumber t' =? transactionNumber t))
  | RemoveTransactionsLaterThan (Some n) => transactionNumber t <=? n
  | RemoveTransactionsLaterThan None => false
  | EmptyCollections => false
  | _ => true
  end.

(** [u'] differs from [u] at most in [retryAttempts] and [nextRetryTime]. *)
Definition same_but_retry (u u' : document) : Prop :=
  forall k, k <> "retryAttempts" -> k <> "nextRetryTime" -> u' !! k = u !! k.

(** Every stored record has exactly the fields of an unresolvable record. *)
Definition well_shaped (l : list document) : Prop :=
  Forall (fun d => dom d = unresolvable_fields) l.

(** The record of [t] is present and differs from [u] at most in the retry
    fields. *)
Definition record_kept (t : Transaction) (u : document) (l : list document) : Prop :=
  exists u', unresolvable_record t l = Some u' /\ same_but_retry u u'.

End Notions.

(** ** Sample data *)

Module Samples.
Import Mongo World MongoDbTransactionStore Notions.

(** A clock that advances one millisecond per reading. *)
Definition ticking_clock (n : nat) : Z := 1567296000000 + Z.of_nat n.

(** A driver that rejects nothing, and one that rejects every call with an
    error that is not a MongoDB error. *)
Definition quiet_env : Env := mkEnv ticking_clock (fun _ => None).

(** A clock that stands still over the few calls at hand, with the same
    driver. *)
Definition steady_env : Env := mkEnv (fun _ => 1567296000000) (fun _ => None).

Definition connection_closed : MongoError := mkError None "connection closed".

Definition failing_env : Env :=
  mkEnv ticking_clock (fun _ => Some connection_closed).

Definition fresh_store : State := mkState [] [] 0 0.

Definition transaction_at (i : Z) : Transaction :=
  mkTransaction (593000 + i) (4294967296 * i) "timehash" "anchor" 105 100.

Definition txA : Transaction :=
  mkTransaction 593000 2546905579618304 "timehash-593000" "anchor-A" 105 100.

Definition txB : Transaction :=
  mkTransaction 593001 2546909874585600 "timehash-593001" "anchor-B" 210 200.

(** A store holding five processed transactions, inserted out of order. *)
Definition ledger : State :=
  mkState (map (fun i => transaction_document (transaction_at i)) [3; 1; 5; 2; 4])
          [] 0 0.

(** A store in which [txA], then [txB], have been recorded as
    unresolvable. *)
Definition backlog : State :=
  final_state
    (recordUnresolvableTransactionFetchAttempt (constructor None) txB quiet_env
       (final_state
          (recordUnresolvableTransactionFetchAttempt (constructor None) txA
             quiet_env fresh_store))).

(** A store that already holds [txA]. *)
Definition recorded_once : State :=
  final_state (addProcessedTransaction txA quiet_env fresh_store).

(** A session on a fresh store: [txA] fails to resolve twice, is recorded as
    processed, and [txB] fails to resolve once. *)
Definition session : list call :=
  [RecordUnresolvableTransactionFetchAttempt txA;
   AddProcessedTransaction txA;
   RecordUnresolvableTransactionFetchAttempt txA;
   RecordUnresolvableTransactionFetchAttempt txB].

Definition record_of_txB : document :=
  newUnresolvableTransaction txB 1567296000002 1567296000003.

Definition session_store : State :=
  after_calls (constructor None) quiet_env session fresh_store.

(** Calls that spare the record of [txA]: repeated attempts on it and on
    [txB], the removal of [txB]'s record, a read, and a truncation at the
    transaction number of [txA]. *)
Definition sparing_calls : list call :=
  [RecordUnresolvableTransactionFetchAttempt txA;
   RecordUnresolvableTransactionFetchAttempt txB;
   GetUnresolvableTransactionsDueForRetry (Some 10);
   RemoveUnresolvableTransaction txB;
   RecordUnresolvableTransactionFetchAttempt txA;
   RemoveTransactionsLaterThan (Some 2546905579618304)].

End Samples.

(** ** The reads of the store and what all methods maintain *)

Module StoreReads.
Import Mongo World MongoDbTransactionStore Notions.
Local Open Scope store_scope.

(** [sort({ f1: -1, f2: -1, ... })]: descending on every listed field, which
    is the ascending order read backwards. *)
Definition sort_ge (spec : list string) (d1 d2 : document) : Prop :=
  sort_le spec d2 d1.

Global Instance sort_ge_dec spec d1 d2 : Decision (sort_ge spec d1 d2).
Proof. unfold sort_ge. apply _. Defined.

Definition sort_docs_descending (spec : list string) (l : list document)
  : list document :=
  merge_sort (sort_ge spec) l.

(** What [find().limit(1).sort({ transactionTime: -1, transactionNumber: -1 })]
    reads: a cursor sorts before it limits, in whatever order the two were
    set on it. *)
Definition read_last (s : State) : list document :=
  limit_docs 1
    (sort_docs_descending ["transactionTime"; "transactionNumber"]
       (List.filter (matches []) (transactionCollection s))).

Definition getLastTransaction : M (option document) :=
  lastTransactions <- storage (fun s => Returned (read_last s) s) ;;
  match lastTransactions with
  | [] => ret None
  | lastProcessedTransaction :: _ => ret (Some lastProcessedTransaction)
  end.

(** [(t1, n1)] is not after [(t2, n2)] in the order of the log. *)
Definition pair_le (t1 n1 t2 n2 : Z) : Prop :=
  t1 < t2 \/ (t1 = t2 /\ n1 <= n2).

(** A property of the two collections that a computation keeps, whatever
    the environment does. *)
Definition maintains {A} (Q : list document -> list document -> Prop) (m : M A)
  : Prop :=
  forall env s,
    Q (transactionCollection s) (unresolvableTransactionCollection s) ->
    Q (transactionCollection (final_state (m env s)))
      (unresolvableTransactionCollection (final_state (m env s))).

(** The methods that only read. *)
Definition reads_only (c : call) : bool :=
  match c with
  | GetProcessedTransactions | GetExponentiallySpacedTransactions
  | GetUnresolvableTransactions | GetUnresolvableTransactionsDueForRetry _ => true
  | _ => false
  end.

End StoreReads.

(** ** The database behind the store: collections and their indexes

    [initialize] and the two [create...IfNotExist] functions work on the
    database itself: which collections exist, and which indexes they carry.
    The store model above counts their driver calls and leaves the
    documents alone; here the set of collections is the state.  Driver
    calls are rejected by the same fault oracle, numbered by [db_calls]. *)

Module Database.
Import Mongo World.

Record index := mkIndex {
  index_keys : list (string * Z);
  index_unique : bool
}.

Record stored := mkStored {
  documents : list document;
  indexes : list index
}.

Record Db := mkDb {
  db_collections : gmap string stored;
  db_calls : nat
}.

Inductive Result (A : Type) :=
  | Done (a : A) (db : Db)
  | Failed (e : MongoError) (db : Db).
Arguments Done {A} a db.
Arguments Failed {A} e db.

Definition final_db {A} (r : Result A) : Db :=
  match r with Done _ db => db | Failed _ db => db end.

Definition D (A : Type) : Type := Env -> Db -> Result A.

Definition done {A} (a : A) : D A := fun _ db => Done a db.

Definition and_then {A B} (m : D A) (k : A -> D B) : D B :=
  fun env db =>
    match m env db with
    | Done a db' => k a env db'
    | Failed e db' => Failed e db'
    end.

Declare Scope db_scope.
Delimit Scope db_scope with db.
Notation "x <- m ;; k" := (and_then m (fun x => k))
  (at level 100, m at next level, right associativity) : db_scope.
Notation "m ;;; k" := (and_then m (fun _ => k))
  (at level 100, right associativity) : db_scope.
Local Open Scope db_scope.

(** One awaited call to the driver. *)
Definition driver {A} (f : Db -> Result A) : D A :=
  fun env db =>
    let db' := mkDb (db_collections db) (S (db_calls db)) in
    match fault_at env (db_calls db) with
    | Some e => Failed e db'
    | None => f db'
    end.

(** [MongoClient.connect(serverUrl)], then [client.db(databaseName)]. *)
Definition connect : D unit := driver (fun db => Done tt db).

(** [db.collections()], mapped to the collection names. *)
Definition collectionNames : D (list string) :=
  driver (fun db => Done (map fst (map_to_list (db_collections db))) db).

(** [db.collection(name)]: a handle, without a call to the server. *)
Definition collection (name : string) : string := name.

(** [db.createCollection(name)] of driver 3.2: an empty collection without
    indexes of the store's; an existing collection is handed back as it
    is. *)
Definition createCollection (name : string) : D string :=
  driver (fun db =>
    match db_collections db !! name with
    | Some _ => Done name db
    | None =>
        Done name (mkDb (<[name := mkStored [] []]> (db_collections db))
                     (db_calls db))
    end).

(** [collection.createIndex(keys, { unique })]; MongoDB creates the
    collection when it is absent. *)
Definition createIndex (name : string) (keys : list (string * Z))
    (unique : bool) : D unit :=
  driver (fun db =>
    let c := default (mkStored [] []) (db_collections db !! name) in
    Done tt
      (mkDb (<[name := mkStored (documents c)
                         (indexes c ++ [mkIndex keys unique])]>
               (db_collections db))
         (db_calls db))).

Definition transactionCollectionName : string := "transactions".
Definition unresolvableTransactionCollectionName : string :=
  "unresolvable-transactions".

Definition createTransactionCollectionIfNotExist : D string :=
  names <- collectionNames ;;
  if bool_decide (transactionCollectionName ∈ names) then
    done (collection transactionCollectionName)
  else
    transactionCollection <- createCollection transactionCollectionName ;;
    createIndex transactionCollection
      [("transactionTime", 1); ("transactionNumber", 1)] true ;;;
    done transactionCollection.

Definition createUnresolvableTransactionCollectionIfNotExist : D string :=
  names <- collectionNames ;;
  if bool_decide (unresolvableTransactionCollectionName ∈ names) then
    done (collection unresolvableTransactionCollectionName)
  else
    unresolvableTransactionCollection <-
      createCollection unresolvableTransactionCollectionName ;;
    createIndex unresolvableTransactionCollection
      [("transactionTime", 1); ("transactionNumber", 1)] true ;;;
    createIndex unresolvableTransactionCollection [("nextRetryTime", 1)] false ;;;
    done unresolvableTransactionCollection.

(** [initialize]: the two handles it stores in the instance. *)
Definition initialize : D (string * string) :=
  connect ;;;
  transactionCollection <- createTransactionCollectionIfNotExist ;;
  unresolvableTransactionCollection <-
    createUnresolvableTransactionCollectionIfNotExist ;;
  done (transactionCollection, unresolvableTransactionCollection).

(** The indexes the store gives the collections it creates. *)
Definition key_index : index :=
  mkIndex [("transactionTime", 1); ("transactionNumber", 1)] true.

Definition retry_index : index := mkIndex [("nextRetryTime", 1)] false.

(** A database is set up when both collections exist. *)
Definition set_up (db : Db) : Prop :=
  is_Some (db_collections db !! transactionCollectionName) /\
  is_Some (db_collections db !! unresolvableTransactionCollectionName).

End Database.

(** Further scenarios. *)

Module Scenarios.
Import Mongo World MongoDbTransactionStore Notions Samples Database.

(** The five transactions of [Samples.ledger], inserted in the order of
    the log. *)
Definition ledger_in_order : State :=
  mkState (map (fun i => transaction_document (Samples.transaction_at i))
             [1; 2; 3; 4; 5])
          [] 0 0.

(** A driver that rejects its second call only. *)
Definition second_call_rejected : Env :=
  mkEnv Samples.ticking_clock
    (fun k => if (k =? 1)%nat then Some Samples.connection_closed else None).

(** A driver that rejects its fourth call only: on an empty database, the
    [createIndex] of the transaction collection. *)
Definition fourth_call_rejected : Env :=
  mkEnv Samples.ticking_clock
    (fun k => if (k =? 3)%nat then Some Samples.connection_closed else None).

Definition empty_database : Db := mkDb ∅ 0.

(** A database in which another application keeps a collection, and the
    transaction collection exists without an index. *)
Definition shared_database : Db :=
  mkDb (<["transactions" := mkStored [transaction_document Samples.txA] []]>
          (<["sessions" := mkStored [] []]> ∅)) 0.

End Scenarios.

(** ** Facts about the MongoDB model *)

Module MongoFacts.
Import Mongo.

(** *** The sort order is a total preorder *)

Lemma ascii_compare_lt_trans (a b c : Ascii.ascii) :
  Ascii.compare a b = Lt -> Ascii.compare b c = Lt -> Ascii.compare a c = Lt.
Proof.
  unfold Ascii.compare. rewrite !N.compare_lt_iff. apply N.lt_trans.
Qed.

Lemma ascii_compare_refl (a : Ascii.ascii) : Ascii.compare a a = Eq.
Proof. unfold Ascii.compare. apply N.compare_refl. Qed.

Lemma string_compare_refl (s : string) : String.compare s s = Eq.
Proof.
  induction s as [|a s IH]; simpl; [reflexivity|].
  now rewrite ascii_compare_refl.
Qed.

Lemma string_compare_lt_trans (s1 s2 s3 : string) :
  String.compare s1 s2 = Lt -> String.compare s2 s3 = Lt ->
  String.compare s1 s3 = Lt.
Proof.
  revert s2 s3.
  induction s1 as [|a s1 IH]; intros [|b s2] [|c s3]; simpl;
    try discriminate; try reflexivity.
  destruct (Ascii.compare a b) eqn:Hab; try discriminate;
    destruct (Ascii.compare b c) eqn:Hbc; try discriminate; intros H1 H2.
  - apply Ascii.compare_eq_iff in Hab, Hbc. subst.
    rewrite ascii_compare_refl. eauto.
  - apply Ascii.compare_eq_iff in Hab. subst. now rewrite Hbc.
  - apply Ascii.compare_eq_iff in Hbc. subst. now rewrite Hab.
  - now rewrite (ascii_compare_lt_trans a b c).
Qed.

Lemma field_compare_refl (a : option value) : field_compare a a = Eq.
Proof.
  destruct a as [[z| |s]|]; simpl;
    auto using Z.compare_refl, string_compare_refl.
Qed.

Lemma field_compare_eq (a b : option value) :
  field_compare a b = Eq -> a = b.
Proof.
  destruct a as [[x| |x]|], b as [[y| |y]|]; simpl; try discriminate;
    try reflexivity.
  - intros H. apply Z.compare_eq_iff in H. congruence.
  - intros H. apply String.compare_eq_iff in H. congruence.
Qed.

Lemma field_compare_antisym (a b : option value) :
  field_compare a b = CompOpp (field_compare b a).
Proof.
  destruct a as [[x| |x]|], b as [[y| |y]|]; simpl; try reflexivity.
  - apply Z.compare_antisym.
  - apply String.compare_antisym.
Qed.

Lemma field_compare_lt_trans (a b c : option value) :
  field_compare a b = Lt -> field_compare b c = Lt -> field_compare a c = Lt.
Proof.
  destruct a as [[x| |x]|], b as [[y| |y]|], c as [[z| |z]|]; simpl;
    try discriminate; try reflexivity.
  - rewrite !Z.compare_lt_iff. lia.
  - apply string_compare_lt_trans.
Qed.

Lemma sort_compare_antisym (spec : list string) (d1 d2 : document) :
  sort_compare spec d1 d2 = CompOpp (sort_compare spec d2 d1).
Proof.
  induction spec as [|k ks IH]; simpl; [reflexivity|].
  rewrite (field_compare_antisym (d1 !! k) (d2 !! k)).
  destruct (field_compare (d2 !! k) (d1 !! k)); simpl; auto.
Qed.

Global Instance sort_le_total (spec : list string) : Total (sort_le spec).
Proof.
  intros d1 d2. unfold sort_le.
  rewrite (sort_compare_antisym spec d2 d1).
  destruct (sort_compare spec d1 d2); simpl; auto.
Qed.

Global Instance sort_le_trans (spec : list string) : Transitive (sort_le spec).
Proof.
  intros d1 d2 d3. unfold sort_le.
  induction spec as [|k ks IH]; simpl; [auto|].
  destruct (field_compare (d1 !! k) (d2 !! k)) eqn:H12;
    destruct (field_compare (d2 !! k) (d3 !! k)) eqn:H23;
    try congruence; intros H1 H2.
  - apply field_compare_eq in H12, H23.
    rewrite H12, H23, field_compare_refl. auto.
  - apply field_compare_eq in H12. now rewrite H12, H23.
  - apply field_compare_eq in H23. now rewrite <- H23, H12.
  - now rewrite (field_compare_lt_trans _ _ _ H12 H23).
Qed.

Lemma sort_docs_sorted (spec : list string) (l : list document) :
  StronglySorted (sort_le spec) (sort_docs spec l).
Proof. apply StronglySorted_merge_sort; apply _. Qed.

Lemma sort_docs_perm (spec : list string) (l : list document) :
  sort_docs spec l ≡ₚ l.
Proof. apply merge_sort_Permutation. Qed.

Lemma sort_docs_length (spec : list string) (l : list document) :
  length (sort_docs spec l) = length l.
Proof. apply Permutation_length, sort_docs_perm. Qed.

Lemma elem_of_sort_docs (spec : list string) (l : list document) (d : document) :
  d ∈ sort_docs spec l <-> d ∈ l.
Proof. now rewrite sort_docs_perm. Qed.

End MongoFacts.

(** ** Running store computations *)

Module WorldFacts.
Import Mongo World.

Lemma storage_ok {A} (f : State -> Outcome A) env s :
  fault_at env (ops s) = None -> storage f env s = f (count_op s).
Proof. intros H. unfold storage. now rewrite H. Qed.

Lemma storage_fault {A} (f : State -> Outcome A) env s e :
  fault_at env (ops s) = Some e -> storage f env s = Thrown e (count_op s).
Proof. intros H. unfold storage. now rewrite H. Qed.

Lemma toArray_ok c env s :
  fault_at env (ops s) = None ->
  toArray c env s = Returned (read_cursor c (count_op s)) (count_op s).
Proof. intros H. unfold toArray. now rewrite storage_ok. Qed.

Lemma get_docs_count_op h s : get_docs h (count_op s) = get_docs h s.
Proof. now destruct h. Qed.

Lemma read_cursor_count_op c s : read_cursor c (count_op s) = read_cursor c s.
Proof. unfold read_cursor. now rewrite get_docs_count_op. Qed.

End WorldFacts.

(** ** Checkpoint samples *)

Module Checkpoints.
Import Mongo World MongoDbTransactionStore Notions Samples MongoFacts WorldFacts.

Lemma omap_cons_option_list {A B} (f : A -> option B) (x : A) (l : list A) :
  omap f (x :: l) = option_list (f x) ++ omap f l.
Proof. simpl. now destruct (f x). Qed.

Lemma in_range_above (n k f : nat) :
  in_range n k = false -> List.filter (in_range n) (seq k f) = [].
Proof.
  unfold in_range. rewrite Nat.leb_gt. intros Hk.
  revert k Hk. induction f as [|f IH]; intros k Hk; simpl; [reflexivity|].
  destruct (Nat.leb_spec (2 ^ k) n) as [Hle|_]; [lia|].
  apply IH.
  assert (2 ^ k <= 2 ^ S k)%nat by (apply Nat.pow_le_mono_r; lia). lia.
Qed.

(** The loop started at its [k]-th iteration pushes the entries at the
    indices [n - 2^j] for the [j >= k] with [2^j <= n], as far as the fuel
    goes. *)
Lemma spaced_loop_from (all : list document) (fuel k : nat) (acc : list document) :
  spaced_loop fuel all (Z.of_nat (length all) - 2 ^ Z.of_nat k) (2 ^ Z.of_nat k) acc
  = acc ++ omap (fun j => all !! (length all - 2 ^ j)%nat)
             (List.filter (in_range (length all)) (seq k fuel)).
Proof.
  revert k acc. induction fuel as [|fuel IH]; intros k acc.
  - simpl. now rewrite app_nil_r.
  - cbn [spaced_loop seq List.filter].
    assert (Hpow : 2 ^ Z.of_nat k = Z.of_nat (2 ^ k)).
    { rewrite Nat2Z.inj_pow. reflexivity. }
    unfold in_range at 1.
    destruct (Nat.leb_spec (2 ^ k) (length all)) as [Hle|Hgt].
    + replace (0 <=? Z.of_nat (length all) - 2 ^ Z.of_nat k) with true
        by (symmetry; apply Z.leb_le; lia).
      replace (Z.of_nat (length all) - 2 ^ Z.of_nat k - 2 ^ Z.of_nat k)
        with (Z.of_nat (length all) - 2 ^ Z.of_nat (S k)).
      2:{ rewrite Nat2Z.inj_succ, Z.pow_succ_r by lia. lia. }
      replace (2 ^ Z.of_nat k * 2) with (2 ^ Z.of_nat (S k)).
      2:{ rewrite Nat2Z.inj_succ, Z.pow_succ_r by lia. lia. }
      rewrite IH, omap_cons_option_list, <- app_assoc.
      do 3 f_equal. rewrite Hpow. f_equal. lia.
    + replace (0 <=? Z.of_nat (length all) - 2 ^ Z.of_nat k) with false
        by (symmetry; apply Z.leb_gt; lia).
      rewrite in_range_above; [now rewrite app_nil_r|].
      unfold in_range. apply Nat.leb_gt.
      assert (2 ^ k <= 2 ^ S k)%nat by (apply Nat.pow_le_mono_r; lia). lia.
Qed.

Lemma in_range_iff (n j : nat) :
  in_range n j = true <-> (j < sample_count n)%nat.
Proof.
  unfold in_range, sample_count. rewrite Nat.leb_le.
  destruct n as [|n].
  - split; [|lia]. intros H. pose proof (Nat.pow_nonzero 2 j). lia.
  - split; intros H.
    + apply Nat.log2_le_pow2 in H; lia.
    + apply Nat.log2_le_pow2; lia.
Qed.

Lemma filter_in_range_seq (n fuel : nat) :
  (sample_count n <= fuel)%nat ->
  List.filter (in_range n) (seq 0 fuel) = seq 0 (sample_count n).
Proof.
  intros Hfuel.
  replace fuel with (sample_count n + (fuel - sample_count n))%nat by lia.
  rewrite seq_app, List.filter_app.
  rewrite List.forallb_filter_id.
  2:{ apply forallb_forall. intros j Hj. apply in_seq in Hj.
      apply in_range_iff. lia. }
  rewrite in_range_above; [now rewrite app_nil_r|].
  destruct (in_range n (0 + sample_count n)) eqn:E; [|reflexivity].
  apply in_range_iff in E. lia.
Qed.

Lemma sample_count_le (n : nat) : (sample_count n <= S n)%nat.
Proof.
  destruct n as [|n]; simpl; [lia|].
  pose proof (Nat.log2_lt_lin (S n)). lia.
Qed.

Lemma omap_seq_total {B} (f : nat -> option B) (len start : nat) :
  (forall j, (start <= j < start + len)%nat -> is_Some (f j)) ->
  length (omap f (seq start len)) = len /\
  forall k, (k < len)%nat -> omap f (seq start len) !! k = f (start + k)%nat.
Proof.
  revert start. induction len as [|len IH]; intros start Hf.
  - split; [reflexivity|]. intros k Hk. lia.
  - destruct (Hf start ltac:(lia)) as [b Hb].
    destruct (IH (S start)) as [Hlen Hlook]; [intros j Hj; apply Hf; lia|].
    cbn [seq omap list_omap]. rewrite Hb. split; [simpl; now rewrite Hlen|].
    intros [|k] Hk; simpl.
    + now rewrite Nat.add_0_r.
    + rewrite Hlook by lia. f_equal. lia.
Qed.

Lemma filter_matches_all (l : list document) : List.filter (matches []) l = l.
Proof. apply List.forallb_filter_id, forallb_forall. reflexivity. Qed.

(** The loop leaves by its own test: fuel beyond the number of samples
    changes nothing. *)
Lemma spaced_loop_fuel (all : list document) (fuel : nat) :
  (sample_count (length all) <= fuel)%nat ->
  spaced_loop fuel all (Z.of_nat (length all) - 1) 1 []
  = spaced_loop (S (length all)) all (Z.of_nat (length all) - 1) 1 [].
Proof.
  intros Hfuel.
  pose proof (spaced_loop_from all fuel 0 []) as H1.
  pose proof (spaced_loop_from all (S (length all)) 0 []) as H2.
  change (2 ^ Z.of_nat 0) with 1 in H1, H2.
  rewrite H1, H2, !filter_in_range_seq; auto using sample_count_le.
Qed.

(** C4.  Over the [n] stored transactions sorted ascending by
    [(transactionTime, transactionNumber)], [getExponentiallySpacedTransactions]
    returns, in this order, the entries at the indices [n-1], [n-2], [n-4],
    [n-8], ..., that is [n - 2^k] for every [k] with [2^k <= n]: the indices
    descend and each one is in range.  Over an empty store the result is
    empty. *)
Theorem checkpoint_samples_indices (env : Env) (s : State) :
  fault_at env (ops s) = None ->
  let spec := ["transactionTime"; "transactionNumber"] in
  let sorted := sort_docs spec (transactionCollection s) in
  let n := length (transactionCollection s) in
  exists samples,
    getExponentiallySpacedTransactions env s = Returned samples (count_op s) /\
    sorted ≡ₚ transactionCollection s /\
    StronglySorted (sort_le spec) sorted /\
    length samples = sample_count n /\
    (forall k, (k < sample_count n)%nat ->
       (2 ^ k <= n)%nat /\
       samples !! k = sorted !! (n - 2 ^ k)%nat /\
       is_Some (samples !! k)) /\
    (forall k k', (k < k' < sample_count n)%nat ->
       (n - 2 ^ k' < n - 2 ^ k)%nat) /\
    (n = 0%nat -> samples = []).
Proof.
  intros Hfault spec sorted n.
  assert (Hn : length sorted = n) by apply sort_docs_length.
  unfold getExponentiallySpacedTransactions, bind.
  rewrite toArray_ok by assumption.
  rewrite read_cursor_count_op. unfold read_cursor, ret, find, sort.
  cbn [c_from c_filter c_sort c_limit get_docs].
  rewrite filter_matches_all. fold spec. fold sorted.
  pose proof (spaced_loop_from sorted (S (length sorted)) 0 []) as Hloop.
  change (2 ^ Z.of_nat 0) with 1 in Hloop.
  rewrite Hloop, filter_in_range_seq by apply sample_count_le.
  rewrite Hn. clear Hloop. simpl app.
  assert (Hin : forall j, (j < sample_count n)%nat -> (2 ^ j <= n)%nat).
  { intros j Hj. apply in_range_iff in Hj. now apply Nat.leb_le in Hj. }
  destruct (omap_seq_total (fun j => sorted !! (n - 2 ^ j)%nat) (sample_count n) 0)
    as [Hlen Hlook].
  { intros j Hj. apply lookup_lt_is_Some. rewrite Hn.
    pose proof (Hin j ltac:(lia)). pose proof (Nat.pow_nonzero 2 j). lia. }
  eexists. split; [reflexivity|].
  split; [apply sort_docs_perm|].
  split; [apply sort_docs_sorted|].
  split; [exact Hlen|].
  split; [|split].
  - intros k Hk. split; [now apply Hin|].
    rewrite Hlook by assumption. simpl. split; [reflexivity|].
    apply lookup_lt_is_Some. rewrite Hn.
    pose proof (Hin k Hk). pose proof (Nat.pow_nonzero 2 k). lia.
  - intros k k' [Hk Hk'].
    pose proof (Hin k' Hk').
    assert (2 ^ k < 2 ^ k')%nat by (apply Nat.pow_lt_mono_r; lia). lia.
  - intros H0. rewrite H0. reflexivity.
Qed.

(** Five stored transactions: the samples are those at the indices 4, 3
    and 1 of the sorted log. *)
Example checkpoint_samples_of_five :
  match getExponentiallySpacedTransactions Samples.quiet_env Samples.ledger with
  | Returned samples _ =>
      (fun d => d !! "transactionTime") <$> samples
      = [Some (VNum 593005); Some (VNum 593004); Some (VNum 593002)]
  | Thrown _ _ => False
  end.
Proof. reflexivity. Qed.

Lemma checkpoint_samples_indices_witness :
  exists samples,
    getExponentiallySpacedTransactions Samples.quiet_env Samples.ledger
      = Returned samples (count_op Samples.ledger) /\
    length samples = 3%nat.
Proof.
  pose proof (checkpoint_samples_indices Samples.quiet_env Samples.ledger eq_refl)
    as H.
  cbv zeta in H.
  destruct H as (samples & Hrun & _ & _ & Hlen & _).
  exists samples. split; [exact Hrun|exact Hlen].
Defined.

End Checkpoints.

(** ** Recording a processed transaction *)

Module RecordTransaction.
Import Mongo World MongoDbTransactionStore Notions Samples MongoFacts WorldFacts.

Lemma same_key_refl (d : document) : same_key d d = true.
Proof. unfold same_key. now apply bool_decide_eq_true. Qed.

Lemma same_key_true (d1 d2 : document) :
  same_key d1 d2 = true <-> index_key d1 = index_key d2.
Proof. unfold same_key. apply bool_decide_eq_true. Qed.

Lemma existsb_same_key_false (d : document) (l : list document) :
  existsb (same_key d) l = false -> List.filter (same_key d) l = [].
Proof.
  induction l as [|x l IH]; simpl; [reflexivity|].
  destruct (same_key d x); simpl; [discriminate|auto].
Qed.

Lemma existsb_same_key_elem (d : document) (l : list document) :
  existsb (same_key d) l = false -> index_key d ∉ index_key <$> l.
Proof.
  induction l as [|x l IH]; simpl; intros H.
  - apply not_elem_of_nil.
  - apply orb_false_iff in H as [Hx Hl].
    rewrite not_elem_of_cons. split; [|auto].
    intros Heq. apply same_key_true in Heq. congruence.
Qed.

Lemma unique_keys_one (d : document) (l : list document) :
  unique_keys l -> existsb (same_key d) l = true ->
  length (List.filter (same_key d) l) = 1%nat.
Proof.
  unfold unique_keys.
  induction l as [|x l IH]; simpl; [discriminate|].
  rewrite NoDup_cons. intros [Hx Hl] H.
  destruct (same_key d x) eqn:E; simpl.
  - rewrite existsb_same_key_false; [reflexivity|].
    destruct (existsb (same_key d) l) eqn:El; [|reflexivity].
    exfalso. apply Hx.
    apply existsb_exists in El as (y & Hy & Hdy).
    apply same_key_true in E, Hdy.
    rewrite <- E, Hdy. apply list_elem_of_fmap_2, list_elem_of_In, Hy.
  - auto.
Qed.

Lemma unique_keys_snoc (d : document) (l : list document) :
  unique_keys l -> existsb (same_key d) l = false -> unique_keys (l ++ [d]).
Proof.
  unfold unique_keys. intros Hl Hd.
  rewrite fmap_app. apply NoDup_app. split; [assumption|].
  split; [|simpl; apply NoDup_singleton].
  intros k Hk Hk'. simpl in Hk'. apply list_elem_of_singleton in Hk'. subst.
  now apply (existsb_same_key_elem d l).
Qed.

Lemma existsb_same_key_snoc (d : document) (l : list document) :
  existsb (same_key d) (l ++ [d]) = true.
Proof. rewrite existsb_app. simpl. now rewrite same_key_refl, orb_true_r. Qed.

(** Outcome of the method when the driver carries the insert out. *)
Lemma addProcessedTransaction_ok (env : Env) (s : State) (t : Transaction) :
  fault_at env (ops s) = None ->
  addProcessedTransaction t env s =
    Returned tt
      (set_docs TransactionCollection
         (if existsb (same_key (transaction_document t)) (transactionCollection s)
          then transactionCollection s
          else transactionCollection s ++ [transaction_document t])
         (count_op s)).
Proof.
  intros Hfault.
  unfold addProcessedTransaction, try_catch, insertOne.
  rewrite storage_ok by assumption.
  rewrite get_docs_count_op. unfold insert_doc. cbn [get_docs].
  now destruct (existsb _ _).
Qed.

(** C2.  [addProcessedTransaction] is an idempotent insert keyed by
    [(transactionTime, transactionNumber)].  When the storage call is not
    rejected by a fault of its own, the method returns without error: a
    transaction whose pair is already stored leaves the collection as it
    was, any other is appended; either way the unique-key invariant is kept,
    exactly one entry is stored for the pair, and recording the transaction
    once more changes no document.  A rejection of the storage call whose
    code is not 11000 reaches the caller as the same error, with no document
    changed. *)
Theorem addProcessedTransaction_idempotent_insert
    (env : Env) (s : State) (t : Transaction) :
  unique_keys (transactionCollection s) ->
  (fault_at env (ops s) = None ->
   exists s',
     addProcessedTransaction t env s = Returned tt s' /\
     unresolvableTransactionCollection s' = unresolvableTransactionCollection s /\
     transactionCollection s' =
       (if existsb (same_key (transaction_document t)) (transactionCollection s)
        then transactionCollection s
        else transactionCollection s ++ [transaction_document t]) /\
     unique_keys (transactionCollection s') /\
     length (entries_for t (transactionCollection s')) = 1%nat /\
     (forall env', fault_at env' (ops s') = None ->
        exists s'',
          addProcessedTransaction t env' s' = Returned tt s'' /\
          transactionCollection s'' = transactionCollection s' /\
          unresolvableTransactionCollection s'' = unresolvableTransactionCollection s')) /\
  (forall e, fault_at env (ops s) = Some e -> code e <> Some 11000 ->
     addProcessedTransaction t env s = Thrown e (count_op s)).
Proof.
  intros Huniq. split.
  - intros Hfault. rewrite addProcessedTransaction_ok by assumption.
    eexists. split; [reflexivity|]. cbn [set_docs count_op
      transactionCollection unresolvableTransactionCollection ops].
    split; [reflexivity|]. split; [reflexivity|].
    destruct (existsb (same_key (transaction_document t)) (transactionCollection s))
      eqn:Hdup.
    + split; [assumption|]. split; [now apply unique_keys_one|].
      intros env' Hfault'. rewrite addProcessedTransaction_ok by assumption.
      eexists. split; [reflexivity|]. cbn. now rewrite Hdup.
    + split; [now apply unique_keys_snoc|]. split.
      * unfold entries_for.
        rewrite List.filter_app, existsb_same_key_false by assumption.
        simpl. now rewrite same_key_refl.
      * intros env' Hfault'. rewrite addProcessedTransaction_ok by assumption.
        eexists. split; [reflexivity|]. cbn.
        now rewrite existsb_same_key_snoc.
  - intros e Hfault Hcode.
    unfold addProcessedTransaction, try_catch, insertOne.
    rewrite (storage_fault _ _ _ e) by assumption.
    rewrite bool_decide_eq_true_2 by assumption. reflexivity.
Qed.

Lemma unique_keys_recorded_once : unique_keys (transactionCollection recorded_once).
Proof. apply NoDup_singleton. Qed.

Lemma addProcessedTransaction_idempotent_insert_witness :
  (exists s',
     addProcessedTransaction Samples.txA Samples.quiet_env recorded_once
       = Returned tt s' /\
     transactionCollection s' = transactionCollection recorded_once /\
     length (entries_for Samples.txA (transactionCollection s')) = 1%nat) /\
  addProcessedTransaction Samples.txA Samples.failing_env recorded_once
    = Thrown Samples.connection_closed (count_op recorded_once).
Proof.
  split.
  - destruct (addProcessedTransaction_idempotent_insert
                Samples.quiet_env recorded_once Samples.txA
                unique_keys_recorded_once) as [Hok _].
    destruct (Hok eq_refl) as (s' & Hrun & _ & Hdocs & _ & Hone & _).
    exists s'. split; [exact Hrun|]. split; [exact Hdocs|exact Hone].
  - destruct (addProcessedTransaction_idempotent_insert
                Samples.failing_env recorded_once Samples.txA
                unique_keys_recorded_once) as [_ Hfault].
    apply Hfault; [reflexivity|discriminate].
Defined.

End RecordTransaction.

(** ** Unresolvable transactions: retry bookkeeping *)

Module Unresolvable.
Import Mongo World MongoDbTransactionStore Notions Samples MongoFacts WorldFacts.

Lemma holds_eq (v : value) (f : option value) :
  holds (CEq v) f = true <-> f = Some v.
Proof.
  destruct f as [w|]; cbn [holds].
  - rewrite bool_decide_eq_true. split; congruence.
  - split; discriminate.
Qed.

Lemma matches_by_key (a b : Z) (d : document) :
  matches (by_key a b) d = true <->
  d !! "transactionTime" = Some (VNum a) /\ d !! "transactionNumber" = Some (VNum b).
Proof.
  unfold matches, by_key. cbn [forallb fst snd].
  rewrite !andb_true_iff, !holds_eq. tauto.
Qed.

Lemma matches_by_key_index (a b : Z) (d : document) :
  matches (by_key a b) d = true <->
  index_key d = (Some (VNum a), Some (VNum b)).
Proof.
  rewrite matches_by_key. unfold index_key. split.
  - intros [-> ->]. reflexivity.
  - intros H. now inversion H.
Qed.

Lemma set_fields_two (k1 k2 : string) (v1 v2 : value) (u : document) :
  set_fields [(k1, v1); (k2, v2)] u = <[k2 := v2]> (<[k1 := v1]> u).
Proof. reflexivity. Qed.

Lemma retry_fields_frame (self : Self) (u0 u : document) (k : string) :
  k <> "retryAttempts" -> k <> "nextRetryTime" ->
  set_fields (retry_fields self u0) u !! k = u !! k.
Proof.
  intros H1 H2. unfold retry_fields. rewrite set_fields_two.
  rewrite !lookup_insert_ne by congruence. reflexivity.
Qed.

Lemma retry_fields_matches (self : Self) (u0 u : document) (a b : Z) :
  matches (by_key a b) (set_fields (retry_fields self u0) u)
  = matches (by_key a b) u.
Proof.
  unfold matches, by_key. cbn [forallb fst snd].
  rewrite !retry_fields_frame by discriminate. reflexivity.
Qed.

Lemma index_key_new (t : Transaction) (first next : Z) :
  index_key (newUnresolvableTransaction t first next)
  = (Some (VNum (transactionTime t)), Some (VNum (transactionNumber t))).
Proof. reflexivity. Qed.

Lemma same_key_new (t : Transaction) (first next : Z) (d : document) :
  same_key (newUnresolvableTransaction t first next) d
  = matches (by_key (transactionTime t) (transactionNumber t)) d.
Proof.
  apply eq_true_iff_eq. rewrite matches_by_key_index.
  unfold same_key. rewrite bool_decide_eq_true, index_key_new.
  split; congruence.
Qed.

Lemma head_filter_none {A} (f : A -> bool) (l : list A) :
  head (List.filter f l) = None -> List.filter f l = [].
Proof. now destruct (List.filter f l). Qed.

Lemma head_filter_snoc {A} (f : A -> bool) (l : list A) (x : A) :
  head (List.filter f (l ++ [x])) =
  match head (List.filter f l) with
  | Some y => Some y
  | None => if f x then Some x else None
  end.
Proof.
  rewrite List.filter_app. destruct (List.filter f l); simpl; [|reflexivity].
  now destruct (f x).
Qed.

Lemma update_first_head (q : query) (fields : list (string * value))
    (l : list document) (u : document) :
  head (List.filter (matches q) l) = Some u ->
  matches q (set_fields fields u) = true ->
  head (List.filter (matches q) (update_first q fields l))
  = Some (set_fields fields u).
Proof.
  induction l as [|d l IH]; simpl; [discriminate|].
  destruct (matches q d) eqn:E; simpl.
  - intros [= ->] Hm. now rewrite Hm.
  - rewrite E. auto.
Qed.

Lemma no_record_no_duplicate (t : Transaction) (first next : Z)
    (l : list document) :
  unresolvable_record t l = None ->
  existsb (same_key (newUnresolvableTransaction t first next)) l = false.
Proof.
  intros H. apply head_filter_none in H.
  induction l as [|d l IH]; cbn [List.filter existsb] in *; [reflexivity|].
  rewrite same_key_new.
  destruct (matches (by_key (transactionTime t) (transactionNumber t)) d);
    [discriminate|auto].
Qed.

(** What a fetch attempt does when the driver carries every call out. *)
Lemma recordUnresolvableTransactionFetchAttempt_ok
    (self : Self) (env : Env) (s : State) (t : Transaction) :
  fault_at env (ops s) = None -> fault_at env (S (ops s)) = None ->
  recordUnresolvableTransactionFetchAttempt self t env s =
  Returned tt
    match unresolvable_record t (unresolvableTransactionCollection s) with
    | None =>
        mkState (transactionCollection s)
          (unresolvableTransactionCollection s
             ++ [newUnresolvableTransaction t (now_at env (ticks s))
                   (now_at env (S (ticks s)))])
          (S (S (ticks s))) (S (S (ops s)))
    | Some u =>
        mkState (transactionCollection s)
          (update_first (by_key (transactionTime t) (transactionNumber t))
             (retry_fields self u) (unresolvableTransactionCollection s))
          (ticks s) (S (S (ops s)))
    end.
Proof.
  intros H1 H2.
  unfold recordUnresolvableTransactionFetchAttempt, bind.
  rewrite toArray_ok by assumption.
  rewrite read_cursor_count_op. unfold read_cursor, find.
  cbn [c_from c_filter c_sort c_limit get_docs].
  unfold unresolvable_record.
  destruct (head (List.filter _ (unresolvableTransactionCollection s))) as [u|] eqn:Hu.
  - unfold updateOne. rewrite storage_ok by exact H2. reflexivity.
  - unfold Date_now, insertOne. cbn [ticks ops count_op].
    rewrite storage_ok by exact H2.
    cbn [get_docs count_op unresolvableTransactionCollection].
    unfold insert_doc.
    rewrite no_record_no_duplicate by exact Hu.
    reflexivity.
Qed.



Lemma quiet_env_fault_free : fault_free Samples.quiet_env.
Proof. intros n. reflexivity. Qed.

Lemma steady_env_fault_free : fault_free Samples.steady_env.
Proof. intros n. reflexivity. Qed.


End Unresolvable.

(** ** Transactions due for retry *)

Module DueForRetry.
Import Mongo World MongoDbTransactionStore Notions Samples MongoFacts WorldFacts.

Lemma getUnresolvableTransactionsDueForRetry_ok
    (self : Self) (limit : option Z) (env : Env) (s : State) :
  fault_at env (ops s) = None ->
  getUnresolvableTransactionsDueForRetry self limit env s =
  Returned
    (limit_docs
       (match limit with
        | Some n => n
        | None => maximumUnresolvableTransactionReturnCount self
        end)
       (due_sorted (now_at env (ticks s)) (unresolvableTransactionCollection s)))
    (mkState (transactionCollection s) (unresolvableTransactionCollection s)
       (S (ticks s)) (S (ops s))).
Proof.
  intros Hfault.
  unfold getUnresolvableTransactionsDueForRetry, bind, Date_now.
  rewrite toArray_ok by exact Hfault. reflexivity.
Qed.

Lemma matches_lte (now : Z) (d : document) :
  matches [("nextRetryTime", CLte now)] d = true <->
  exists z, d !! "nextRetryTime" = Some (VNum z) /\ z <= now.
Proof.
  unfold matches. cbn [forallb fst snd]. rewrite andb_true_r.
  destruct (d !! "nextRetryTime") as [[z| |x]|]; cbn [holds].
  - rewrite Z.leb_le. split; [eauto|]. intros (z' & [= <-] & H). exact H.
  - split; [discriminate|]. intros (z' & [=] & _).
  - split; [discriminate|]. intros (z' & [=] & _).
  - split; [discriminate|]. intros (z' & [=] & _).
Qed.

Lemma sort_le_retry_le (d1 d2 : document) :
  sort_le ["nextRetryTime"] d1 d2 -> retry_le d1 d2.
Proof.
  unfold sort_le, retry_le. cbn [sort_compare].
  intros H z1 z2 H1 H2. rewrite H1, H2 in H. cbn [field_compare] in H.
  destruct (Z.compare_spec z1 z2); [lia|lia|congruence].
Qed.

Lemma StronglySorted_weaken {A} (R1 R2 : relation A) (l : list A) :
  (forall x y, R1 x y -> R2 x y) -> StronglySorted R1 l -> StronglySorted R2 l.
Proof.
  intros HR. induction 1 as [|x l Hl IH Hx]; constructor; [assumption|].
  eapply Forall_impl; [exact Hx|]. intros y. apply HR.
Qed.

Lemma due_sorted_retry_le (now : Z) (l : list document) :
  StronglySorted retry_le (due_sorted now l).
Proof.
  eapply StronglySorted_weaken; [exact sort_le_retry_le|].
  apply sort_docs_sorted.
Qed.

Lemma elem_of_due_sorted (now : Z) (l : list document) (d : document) :
  d ∈ due_sorted now l <->
  d ∈ l /\ exists z, d !! "nextRetryTime" = Some (VNum z) /\ z <= now.
Proof.
  unfold due_sorted. rewrite elem_of_sort_docs, list_elem_of_In, filter_In.
  now rewrite matches_lte, list_elem_of_In.
Qed.

Lemma limit_docs_positive (n : Z) (l : list document) :
  0 < n -> limit_docs n l = take (Z.to_nat n) l.
Proof.
  intros Hn. unfold limit_docs.
  destruct (Z.eqb_spec n 0) as [->|_]; [lia|].
  f_equal. lia.
Qed.

(** C5, as stated, fails: with two records due and a limit of 0 the cursor
    is not limited at all and both records are returned, more than the
    limit. *)
Lemma dueForRetry_limit_zero_returns_all :
  exists docs s',
    getUnresolvableTransactionsDueForRetry (constructor None) (Some 0)
      quiet_env backlog = Returned docs s' /\
    length docs = 2%nat /\
    ~ (Z.of_nat (length docs) <= 0).
Proof.
  rewrite getUnresolvableTransactionsDueForRetry_ok by reflexivity.
  eexists _, _. split; [reflexivity|].
  split; [reflexivity|].
  intros H. apply Z.leb_le in H. discriminate H.
Qed.

(** C5, amended.  For every store state and every limit of at least 1 (or
    no limit, which stands for 100), [getUnresolvableTransactionsDueForRetry]
    returns the first [limit] of the unresolvable records whose
    [nextRetryTime] is at most the clock reading [now], taken in ascending
    order of [nextRetryTime]: every entry returned is a stored record due at
    [now], the entries ascend by [nextRetryTime], and there are never more
    than [limit] of them. *)
Theorem dueForRetry_due_sorted_capped
    (factor limit : option Z) (env : Env) (s : State) :
  fault_at env (ops s) = None ->
  (forall n, limit = Some n -> 0 < n) ->
  let self := constructor factor in
  let now := now_at env (ticks s) in
  let cap := match limit with Some n => n | None => 100 end in
  exists docs s',
    getUnresolvableTransactionsDueForRetry self limit env s = Returned docs s' /\
    docs = take (Z.to_nat cap) (due_sorted now (unresolvableTransactionCollection s)) /\
    (forall d, d ∈ docs ->
       d ∈ unresolvableTransactionCollection s /\
       exists z, d !! "nextRetryTime" = Some (VNum z) /\ z <= now) /\
    StronglySorted retry_le docs /\
    Z.of_nat (length docs) <= cap /\
    (limit = None ->
     getUnresolvableTransactionsDueForRetry self (Some 100) env s = Returned docs s').
Proof.
  intros Hfault Hlimit self now cap.
  assert (Hcap : 0 < cap).
  { unfold cap. destruct limit as [n|]; [now apply Hlimit|lia]. }
  rewrite getUnresolvableTransactionsDueForRetry_ok by exact Hfault.
  replace (match limit with
           | Some n => n
           | None => maximumUnresolvableTransactionReturnCount self
           end) with cap by (unfold cap; now destruct limit).
  rewrite limit_docs_positive by exact Hcap. fold now.
  eexists _, _. split; [reflexivity|]. split; [reflexivity|].
  split; [|split; [|split]].
  - intros d Hd. apply elem_of_due_sorted.
    apply elem_of_take in Hd as (i & Hi & _).
    eapply list_elem_of_lookup_2. exact Hi.
  - pose proof (due_sorted_retry_le now (unresolvableTransactionCollection s)) as Hs.
    rewrite <- (take_drop (Z.to_nat cap)) in Hs.
    now apply StronglySorted_app_1_l in Hs.
  - rewrite length_take. lia.
  - intros ->. rewrite getUnresolvableTransactionsDueForRetry_ok by exact Hfault.
    rewrite limit_docs_positive by lia. reflexivity.
Qed.

Lemma dueForRetry_due_sorted_capped_witness :
  exists docs s',
    getUnresolvableTransactionsDueForRetry (constructor None) (Some 1)
      quiet_env backlog = Returned docs s' /\
    StronglySorted retry_le docs /\
    Z.of_nat (length docs) <= 1.
Proof.
  pose proof (dueForRetry_due_sorted_capped None (Some 1) quiet_env backlog eq_refl)
    as H.
  cbv zeta in H.
  destruct H as (docs & s' & Hrun & _ & _ & Hsorted & Hcap & _).
  { intros n [= <-]. reflexivity. }
  exists docs, s'. split; [exact Hrun|]. split; [exact Hsorted|exact Hcap].
Defined.

End DueForRetry.

(** ** Truncation after a reorganisation *)

Module Truncate.
Import Mongo World MongoDbTransactionStore Notions Samples MongoFacts WorldFacts Unresolvable.

Lemma matches_gt (n : Z) (d : document) :
  matches [("transactionNumber", CGt n)] d = true <->
  exists z, d !! "transactionNumber" = Some (VNum z) /\ n < z.
Proof.
  unfold matches. cbn [forallb fst snd]. rewrite andb_true_r.
  destruct (d !! "transactionNumber") as [[z| |x]|]; cbn [holds].
  - rewrite Z.ltb_lt. split; [eauto|]. intros (z' & [= <-] & H). exact H.
  - split; [discriminate|]. intros (z' & [=] & _).
  - split; [discriminate|]. intros (z' & [=] & _).
  - split; [discriminate|]. intros (z' & [=] & _).
Qed.

Lemma elem_of_not_later_than (n : Z) (l : list document) (d : document) :
  d ∈ not_later_than n l <->
  d ∈ l /\ ~ exists z, d !! "transactionNumber" = Some (VNum z) /\ n < z.
Proof.
  unfold not_later_than, delete_all.
  rewrite list_elem_of_In, filter_In, <- list_elem_of_In, <- matches_gt.
  now rewrite negb_true_iff, not_true_iff_false.
Qed.

Lemma removeTransactionsLaterThan_ok (n : Z) (env : Env) (s : State) :
  fault_at env (ops s) = None -> fault_at env (S (ops s)) = None ->
  removeTransactionsLaterThan (Some n) env s =
  Returned tt
    (mkState (not_later_than n (transactionCollection s))
       (not_later_than n (unresolvableTransactionCollection s))
       (ticks s) (S (S (ops s)))).
Proof.
  intros H1 H2. unfold removeTransactionsLaterThan, bind, deleteMany.
  rewrite storage_ok by exact H1. rewrite storage_ok by exact H2.
  reflexivity.
Qed.

Lemma emptyCollections_ok (env : Env) (s : State) :
  fault_free env ->
  emptyCollections env s = Returned tt (mkState [] [] (ticks s) (9 + ops s)).
Proof.
  intros Hfree.
  unfold emptyCollections, createUnresolvableTransactionCollectionIfNotExist,
    createTransactionCollectionIfNotExist, bind, drop, administrative.
  repeat (rewrite storage_ok by apply Hfree;
          cbn [set_docs get_docs count_op transactionCollection
                 unresolvableTransactionCollection ticks ops]).
  reflexivity.
Qed.

(** C6.  With every storage call carried out,
    [removeTransactionsLaterThan(n)] leaves in each of the two collections
    exactly the documents that were there and whose [transactionNumber] is
    not greater than [n], in their order: every record with
    [transactionNumber > n] is gone and every record with
    [transactionNumber <= n] stays.  [removeTransactionsLaterThan(undefined)]
    leaves both collections empty. *)
Theorem removeTransactionsLaterThan_truncates (env : Env) (s : State) :
  fault_free env ->
  (forall n, exists s',
     removeTransactionsLaterThan (Some n) env s = Returned tt s' /\
     transactionCollection s' = not_later_than n (transactionCollection s) /\
     unresolvableTransactionCollection s' =
       not_later_than n (unresolvableTransactionCollection s) /\
     forall h d z, d !! "transactionNumber" = Some (VNum z) ->
       (n < z -> d ∉ get_docs h s') /\
       (z <= n -> d ∈ get_docs h s -> d ∈ get_docs h s') /\
       (d ∈ get_docs h s' -> d ∈ get_docs h s /\ z <= n)) /\
  (exists s',
     removeTransactionsLaterThan None env s = Returned tt s' /\
     transactionCollection s' = [] /\
     unresolvableTransactionCollection s' = []).
Proof.
  intros Hfree. split.
  - intros n. rewrite removeTransactionsLaterThan_ok by apply Hfree.
    eexists. split; [reflexivity|]. split; [reflexivity|]. split; [reflexivity|].
    intros h d z Hz.
    assert (Hin : forall l, d ∈ not_later_than n l <-> d ∈ l /\ z <= n).
    { intros l. rewrite elem_of_not_later_than. split.
      - intros [Hl Hnot]. split; [exact Hl|].
        destruct (Z.le_gt_cases z n) as [Hle|Hgt]; [exact Hle|].
        exfalso. apply Hnot. exists z. split; [exact Hz|lia].
      - intros [Hl Hle]. split; [exact Hl|].
        intros (z' & Hz' & Hgt). rewrite Hz in Hz'. inversion Hz'. lia. }
    destruct h; cbn [get_docs transactionCollection unresolvableTransactionCollection];
      rewrite Hin; (split; [|split]); try tauto; intros Hgt [_ Hle]; lia.
  - unfold removeTransactionsLaterThan. rewrite emptyCollections_ok by exact Hfree.
    eexists. split; [reflexivity|]. split; reflexivity.
Qed.

Lemma removeTransactionsLaterThan_truncates_witness :
  (exists s',
     removeTransactionsLaterThan (Some 2546905579618304) Samples.quiet_env
       Samples.backlog = Returned tt s' /\
     unresolvableTransactionCollection s' =
       not_later_than 2546905579618304
         (unresolvableTransactionCollection Samples.backlog)) /\
  (exists s',
     removeTransactionsLaterThan None Samples.quiet_env Samples.backlog
       = Returned tt s' /\
     transactionCollection s' = [] /\
     unresolvableTransactionCollection s' = []).
Proof.
  destruct (removeTransactionsLaterThan_truncates Samples.quiet_env Samples.backlog
              quiet_env_fault_free) as [Hsome Hnone].
  split; [|exact Hnone].
  destruct (Hsome 2546905579618304) as (s' & Hrun & _ & Hunres & _).
  exists s'. split; [exact Hrun|exact Hunres].
Defined.

(** Truncating the sample backlog after the transaction number of [txA]
    removes the record of [txB] and keeps that of [txA]. *)
Example truncate_backlog :
  (fun d => d !! "anchorFileHash")
    <$> not_later_than 2546905579618304
          (unresolvableTransactionCollection Samples.backlog)
  = [Some (VStr "anchor-A")].
Proof. reflexivity. Qed.

End Truncate.

(** ** Sequences of calls on one store *)

Module Calls.
Import Mongo World MongoDbTransactionStore Notions Samples MongoFacts WorldFacts Unresolvable.
Local Open Scope store_scope.

Section Keeps.
Context {Q : list document -> Prop}.

Lemma keeps_ret {A} (a : A) : keeps Q (ret a).
Proof. intros env s H. exact H. Qed.

Lemma keeps_throw {A} (e : MongoError) : keeps Q (@throw A e).
Proof. intros env s H. exact H. Qed.

Lemma keeps_bind {A B} (m : M A) (k : A -> M B) :
  keeps Q m -> (forall a, keeps Q (k a)) -> keeps Q (bind m k).
Proof.
  intros Hm Hk env s H. unfold bind.
  specialize (Hm env s H).
  destruct (m env s) as [a s'|e s']; [apply Hk|]; exact Hm.
Qed.

Lemma keeps_try_catch {A} (m : M A) (h : MongoError -> M A) :
  keeps Q m -> (forall e, keeps Q (h e)) -> keeps Q (try_catch m h).
Proof.
  intros Hm Hh env s H. unfold try_catch.
  specialize (Hm env s H).
  destruct (m env s) as [a s'|e s']; [|apply Hh]; exact Hm.
Qed.

Lemma keeps_Date_now : keeps Q Date_now.
Proof. intros env s H. exact H. Qed.

Lemma keeps_storage {A} (f : State -> Outcome A) :
  (forall s, Q (unresolvableTransactionCollection s) ->
             Q (unresolvableTransactionCollection (final_state (f s)))) ->
  keeps Q (storage f).
Proof.
  intros Hf env s H. unfold storage.
  destruct (fault_at env (ops s)); [exact H|]. apply Hf. exact H.
Qed.

Lemma keeps_toArray (c : cursor) : keeps Q (toArray c).
Proof. apply keeps_storage. auto. Qed.

Lemma keeps_administrative : keeps Q administrative.
Proof. apply keeps_storage. auto. Qed.

Lemma keeps_discard {A} (m : M A) : keeps Q m -> keeps Q (discard m).
Proof. intros H. apply keeps_bind; [exact H|]. intros a. apply keeps_ret. Qed.

(** Storage calls on the transaction collection do not touch the
    unresolvable one. *)
Lemma keeps_insertOne_transactions (d : document) :
  keeps Q (insertOne TransactionCollection d).
Proof.
  apply keeps_storage. intros s H. cbn [get_docs].
  destruct (insert_doc d (transactionCollection s)); exact H.
Qed.

Lemma keeps_addProcessedTransaction (t : Transaction) :
  keeps Q (addProcessedTransaction t).
Proof.
  apply keeps_try_catch; [apply keeps_insertOne_transactions|].
  intros e. destruct (bool_decide _); [apply keeps_throw|apply keeps_ret].
Qed.

Lemma keeps_getExponentiallySpacedTransactions :
  keeps Q getExponentiallySpacedTransactions.
Proof.
  apply keeps_bind; [apply keeps_toArray|]. intros a. apply keeps_ret.
Qed.

Lemma keeps_getUnresolvableTransactionsDueForRetry self n :
  keeps Q (getUnresolvableTransactionsDueForRetry self n).
Proof.
  apply keeps_bind; [apply keeps_Date_now|]. intros a. apply keeps_toArray.
Qed.

(** What remains to show for a fetch attempt: the insert of a new record
    and the update of the retry fields keep [Q]. *)
Lemma keeps_recordUnresolvableTransactionFetchAttempt self t :
  (forall first next l,
     Q l -> Q (l ++ [newUnresolvableTransaction t first next])) ->
  (forall u0 l,
     Q l ->
     Q (update_first (by_key (transactionTime t) (transactionNumber t))
          (retry_fields self u0) l)) ->
  keeps Q (recordUnresolvableTransactionFetchAttempt self t).
Proof.
  intros Hins Hupd.
  apply keeps_bind; [apply keeps_toArray|]. intros found.
  destruct (head found) as [u0|].
  - apply keeps_storage. intros s H.
    cbn [final_state set_docs get_docs unresolvableTransactionCollection].
    apply Hupd. exact H.
  - apply keeps_bind; [apply keeps_Date_now|]. intros first.
    apply keeps_bind; [apply keeps_Date_now|]. intros next.
    apply keeps_storage. intros s H. cbn [get_docs].
    destruct (insert_doc _ (unresolvableTransactionCollection s)) as [e|l] eqn:E;
      [exact H|].
    cbn [final_state set_docs unresolvableTransactionCollection].
    unfold insert_doc in E. destruct (existsb _ _); [discriminate|].
    inversion E; subst. apply Hins. exact H.
Qed.

End Keeps.

End Calls.

(** ** The shape of stored unresolvable records *)

Module RecordShape.
Import Mongo World MongoDbTransactionStore Notions Samples MongoFacts WorldFacts Unresolvable Calls.

Lemma dom_newUnresolvableTransaction (t : Transaction) (first next : Z) :
  dom (newUnresolvableTransaction t first next) = unresolvable_fields.
Proof.
  unfold newUnresolvableTransaction, unresolvable_fields.
  rewrite !dom_insert_L, dom_empty_L. set_solver.
Qed.

Lemma dom_retry_fields (self : Self) (u0 u : document) :
  dom u = unresolvable_fields ->
  dom (set_fields (retry_fields self u0) u) = unresolvable_fields.
Proof.
  intros H. unfold retry_fields. rewrite set_fields_two, !dom_insert_L, H.
  unfold unresolvable_fields. set_solver.
Qed.

Lemma no_fee_fields (d : document) :
  dom d = unresolvable_fields ->
  d !! "transactionFeePaid" = None /\ d !! "normalizedTransactionFee" = None.
Proof.
  intros H. split; apply not_elem_of_dom; rewrite H;
    unfold unresolvable_fields;
    rewrite !not_elem_of_union, !not_elem_of_singleton;
    repeat split; discriminate.
Qed.

Lemma well_shaped_update_first (q : query) (self : Self) (u0 : document)
    (l : list document) :
  well_shaped l -> well_shaped (update_first q (retry_fields self u0) l).
Proof.
  unfold well_shaped.
  induction 1 as [|d l Hd Hl IH]; cbn [update_first]; [constructor|].
  destruct (matches q d); constructor; auto using dom_retry_fields.
Qed.

Lemma well_shaped_delete_first (q : query) (l : list document) :
  well_shaped l -> well_shaped (delete_first q l).
Proof.
  unfold well_shaped.
  induction 1 as [|d l Hd Hl IH]; cbn [delete_first]; [constructor|].
  destruct (matches q d); [assumption|]. constructor; assumption.
Qed.

Lemma well_shaped_delete_all (q : query) (l : list document) :
  well_shaped l -> well_shaped (delete_all q l).
Proof.
  unfold well_shaped, delete_all. rewrite !List.Forall_forall.
  intros H d Hd. apply filter_In in Hd. apply H. tauto.
Qed.

Lemma well_shaped_snoc (t : Transaction) (first next : Z) (l : list document) :
  well_shaped l -> well_shaped (l ++ [newUnresolvableTransaction t first next]).
Proof.
  unfold well_shaped. intros H. apply Forall_app. split; [exact H|].
  constructor; [apply dom_newUnresolvableTransaction|constructor].
Qed.

Lemma keeps_well_shaped (self : Self) (c : call) :
  keeps well_shaped (invoke self c).
Proof.
  destruct c as [t| | |t|t| |n|[n|]|]; cbn [invoke].
  - apply keeps_addProcessedTransaction.
  - apply keeps_discard, keeps_toArray.
  - apply keeps_discard, keeps_getExponentiallySpacedTransactions.
  - apply keeps_recordUnresolvableTransactionFetchAttempt.
    + intros. now apply well_shaped_snoc.
    + intros. now apply well_shaped_update_first.
  - apply keeps_storage. intros s H.
    cbn [final_state set_docs get_docs unresolvableTransactionCollection].
    now apply well_shaped_delete_first.
  - apply keeps_discard, keeps_toArray.
  - apply keeps_discard, keeps_getUnresolvableTransactionsDueForRetry.
  - apply keeps_bind; [|intros _]; apply keeps_storage; intros s H;
      cbn [final_state set_docs get_docs unresolvableTransactionCollection];
      [now apply well_shaped_delete_all|exact H].
  - unfold removeTransactionsLaterThan, emptyCollections,
      createUnresolvableTransactionCollectionIfNotExist,
      createTransactionCollectionIfNotExist.
    repeat (apply keeps_bind; [|intros _]);
      try apply keeps_administrative; apply keeps_storage; intros s H;
      cbn [final_state set_docs get_docs unresolvableTransactionCollection];
      first [exact H | constructor].
  - unfold emptyCollections,
      createUnresolvableTransactionCollectionIfNotExist,
      createTransactionCollectionIfNotExist.
    repeat (apply keeps_bind; [|intros _]);
      try apply keeps_administrative; apply keeps_storage; intros s H;
      cbn [final_state set_docs get_docs unresolvableTransactionCollection];
      first [exact H | constructor].
Qed.

Lemma after_calls_well_shaped (self : Self) (env : Env) (calls : list call)
    (s : State) :
  well_shaped (unresolvableTransactionCollection s) ->
  well_shaped (unresolvableTransactionCollection (after_calls self env calls s)).
Proof.
  revert s. induction calls as [|c calls IH]; intros s H; [exact H|].
  cbn [after_calls fold_left]. apply IH. now apply keeps_well_shaped.
Qed.

Lemma limit_docs_elem_of (n : Z) (l : list document) (d : document) :
  d ∈ limit_docs n l -> d ∈ l.
Proof.
  unfold limit_docs. destruct (n =? 0); [auto|].
  intros H. apply elem_of_take in H as (i & Hi & _).
  eapply list_elem_of_lookup_2. exact Hi.
Qed.

Lemma read_cursor_elem_of (c : cursor) (s : State) (d : document) :
  d ∈ read_cursor c s -> d ∈ get_docs (c_from c) s.
Proof.
  unfold read_cursor. intros H.
  assert (Hsorted : d ∈ match c_sort c with
                        | Some spec =>
                            sort_docs spec
                              (List.filter (matches (c_filter c)) (get_docs (c_from c) s))
                        | None => List.filter (matches (c_filter c)) (get_docs (c_from c) s)
                        end).
  { destruct (c_limit c); [eapply limit_docs_elem_of|]; exact H. }
  assert (Hfound : d ∈ List.filter (matches (c_filter c)) (get_docs (c_from c) s)).
  { destruct (c_sort c); [apply elem_of_sort_docs in Hsorted|]; exact Hsorted. }
  apply list_elem_of_In, filter_In in Hfound. apply list_elem_of_In. tauto.
Qed.

(** Whatever is returned as due for retry is a stored unresolvable record. *)
Lemma due_for_retry_stored (self : Self) (limit : option Z) (env : Env)
    (s s' : State) (docs : list document) (d : document) :
  getUnresolvableTransactionsDueForRetry self limit env s = Returned docs s' ->
  d ∈ docs -> d ∈ unresolvableTransactionCollection s.
Proof.
  unfold getUnresolvableTransactionsDueForRetry, bind, Date_now, toArray, storage.
  cbn [ops]. destruct (fault_at env (ops s)); [discriminate|].
  intros [= <- _] Hd. apply read_cursor_elem_of in Hd. exact Hd.
Qed.

(** C9.  The record that [recordUnresolvableTransactionFetchAttempt] creates
    for a transaction [t] holds [transactionTime], [transactionNumber],
    [anchorFileHash] and [transactionTimeHash] of [t] and the three retry
    fields, and nothing else: [transactionFeePaid] and
    [normalizedTransactionFee] are not stored.  Hence, whatever calls were
    made on a store whose unresolvable collection started empty, every
    entry returned by [getUnresolvableTransactionsDueForRetry] has exactly
    these seven fields and no fee field. *)
Theorem unresolvable_records_carry_no_fee (self : Self) (env : Env) :
  (forall s t,
     fault_free env ->
     unresolvable_record t (unresolvableTransactionCollection s) = None ->
     exists s' u,
       recordUnresolvableTransactionFetchAttempt self t env s = Returned tt s' /\
       unresolvableTransactionCollection s' =
         unresolvableTransactionCollection s ++ [u] /\
       dom u = unresolvable_fields /\
       u !! "transactionTime" = Some (VNum (transactionTime t)) /\
       u !! "transactionNumber" = Some (VNum (transactionNumber t)) /\
       u !! "anchorFileHash" = Some (VStr (anchorFileHash t)) /\
       u !! "transactionTimeHash" = Some (VStr (transactionTimeHash t)) /\
       u !! "transactionFeePaid" = None /\
       u !! "normalizedTransactionFee" = None) /\
  (forall s calls limit docs s' d,
     unresolvableTransactionCollection s = [] ->
     getUnresolvableTransactionsDueForRetry self limit env
       (after_calls self env calls s) = Returned docs s' ->
     d ∈ docs ->
     dom d = unresolvable_fields /\
     d !! "transactionFeePaid" = None /\
     d !! "normalizedTransactionFee" = None).
Proof.
  split.
  - intros s t Hfree Hnone.
    rewrite recordUnresolvableTransactionFetchAttempt_ok by apply Hfree.
    rewrite Hnone. eexists _, _. split; [reflexivity|].
    split; [reflexivity|].
    split; [apply dom_newUnresolvableTransaction|].
    repeat split; reflexivity.
  - intros s calls limit docs s' d Hempty Hrun Hd.
    apply (due_for_retry_stored _ _ _ _ _ _ _ Hrun) in Hd.
    assert (Hshape : well_shaped
              (unresolvableTransactionCollection (after_calls self env calls s))).
    { apply after_calls_well_shaped. rewrite Hempty. constructor. }
    unfold well_shaped in Hshape. rewrite List.Forall_forall in Hshape.
    apply list_elem_of_In, Hshape in Hd.
    split; [exact Hd|]. now apply no_fee_fields.
Qed.

(** What is due after the sample session: the record of [txB] alone, the
    retry of [txA] being a minute away. *)
Example session_due :
  exists s',
    getUnresolvableTransactionsDueForRetry (constructor None) None Samples.quiet_env
      session_store = Returned [record_of_txB] s'.
Proof. eexists. reflexivity. Qed.

Lemma unresolvable_records_carry_no_fee_witness :
  dom record_of_txB = unresolvable_fields /\
  record_of_txB !! "transactionFeePaid" = None /\
  record_of_txB !! "normalizedTransactionFee" = None.
Proof.
  destruct (unresolvable_records_carry_no_fee (constructor None) Samples.quiet_env)
    as [_ Hdue].
  eapply (Hdue Samples.fresh_store session None [record_of_txB]).
  - reflexivity.
  - reflexivity.
  - apply list_elem_of_here.
Defined.

End RecordShape.

(** ** Repeated attempts touch the retry fields only *)

Module RetryFrame.
Import Mongo World MongoDbTransactionStore Notions Samples MongoFacts WorldFacts Unresolvable Calls.

Lemma same_but_retry_refl (u : document) : same_but_retry u u.
Proof. intros k _ _. reflexivity. Qed.

Lemma same_but_retry_trans (u1 u2 u3 : document) :
  same_but_retry u1 u2 -> same_but_retry u2 u3 -> same_but_retry u1 u3.
Proof. intros H12 H23 k Hk1 Hk2. now rewrite H23, H12. Qed.

Lemma same_but_retry_set (self : Self) (u0 u : document) :
  same_but_retry u (set_fields (retry_fields self u0) u).
Proof. intros k Hk1 Hk2. now apply retry_fields_frame. Qed.

Lemma record_update_first (self : Self) (t : Transaction) (q : query)
    (u0 u : document) (l : list document) :
  unresolvable_record t l = Some u ->
  record_kept t u (update_first q (retry_fields self u0) l).
Proof.
  unfold record_kept, unresolvable_record.
  set (qt := by_key (transactionTime t) (transactionNumber t)).
  induction l as [|d l IH]; cbn [update_first List.filter]; [discriminate|].
  destruct (matches q d) eqn:Eq, (matches qt d) eqn:Et;
    cbn [List.filter head]; intros Hu.
  - subst qt. rewrite retry_fields_matches, Et. cbn [head].
    inversion Hu; subst. eauto using same_but_retry_set.
  - subst qt. rewrite retry_fields_matches, Et.
    eauto using same_but_retry_refl.
  - rewrite Et. cbn [head]. eauto using same_but_retry_refl.
  - rewrite Et. auto.
Qed.

Lemma record_snoc (t : Transaction) (u x : document) (l : list document) :
  unresolvable_record t l = Some u -> unresolvable_record t (l ++ [x]) = Some u.
Proof.
  unfold unresolvable_record. intros H. now rewrite head_filter_snoc, H.
Qed.

Lemma record_delete_first (t : Transaction) (q : query) (l : list document) :
  (forall d, matches q d = true ->
             matches (by_key (transactionTime t) (transactionNumber t)) d = false) ->
  unresolvable_record t (delete_first q l) = unresolvable_record t l.
Proof.
  intros Hq. unfold unresolvable_record.
  set (qt := by_key (transactionTime t) (transactionNumber t)) in *.
  induction l as [|d l IH]; cbn [delete_first List.filter]; [reflexivity|].
  destruct (matches q d) eqn:E.
  - now rewrite (Hq d E).
  - cbn [List.filter]. destruct (matches qt d); cbn [head]; [reflexivity|exact IH].
Qed.

Lemma record_delete_all (t : Transaction) (q : query) (l : list document) :
  (forall d, matches q d = true ->
             matches (by_key (transactionTime t) (transactionNumber t)) d = false) ->
  unresolvable_record t (delete_all q l) = unresolvable_record t l.
Proof.
  intros Hq. unfold unresolvable_record, delete_all.
  set (qt := by_key (transactionTime t) (transactionNumber t)) in *.
  induction l as [|d l IH]; cbn [List.filter]; [reflexivity|].
  destruct (matches q d) eqn:E; cbn [negb List.filter].
  - now rewrite (Hq d E).
  - destruct (matches qt d); cbn [head]; [reflexivity|exact IH].
Qed.

Lemma other_key_no_match (t t' : Transaction) (d : document) :
  (transactionTime t' =? transactionTime t)
    && (transactionNumber t' =? transactionNumber t) = false ->
  matches (by_key (transactionTime t') (transactionNumber t')) d = true ->
  matches (by_key (transactionTime t) (transactionNumber t)) d = false.
Proof.
  intros Hne Hm. apply matches_by_key in Hm as [H1 H2].
  apply not_true_iff_false. rewrite matches_by_key, H1, H2.
  intros [[= E1] [= E2]].
  rewrite E1, E2, !Z.eqb_refl in Hne. discriminate.
Qed.

Lemma later_no_match (t : Transaction) (n : Z) (d : document) :
  transactionNumber t <= n ->
  matches [("transactionNumber", CGt n)] d = true ->
  matches (by_key (transactionTime t) (transactionNumber t)) d = false.
Proof.
  intros Hle Hm. apply Truncate.matches_gt in Hm as (z & Hz & Hgt).
  apply not_true_iff_false. rewrite matches_by_key, Hz.
  intros [_ [= E]]. lia.
Qed.

Lemma keeps_record (self : Self) (t : Transaction) (u : document) (c : call) :
  spares t c = true -> keeps (record_kept t u) (invoke self c).
Proof.
  destruct c as [t'| | |t'|t'| |n|[n|]|]; cbn [invoke spares]; intros Hc;
    try discriminate.
  - apply keeps_addProcessedTransaction.
  - apply keeps_discard, keeps_toArray.
  - apply keeps_discard, keeps_getExponentiallySpacedTransactions.
  - apply keeps_recordUnresolvableTransactionFetchAttempt.
    + intros first next l (u' & Hu' & Hframe). exists u'.
      split; [now apply record_snoc|exact Hframe].
    + intros u0 l (u' & Hu' & Hframe).
      destruct (record_update_first self t
                  (by_key (transactionTime t') (transactionNumber t')) u0 u' l Hu')
        as (u'' & Hu'' & Hframe').
      exists u''. split; [exact Hu''|].
      eapply same_but_retry_trans; eassumption.
  - apply negb_true_iff in Hc.
    apply keeps_storage. intros s (u' & Hu' & Hframe).
    cbn [final_state set_docs get_docs unresolvableTransactionCollection].
    exists u'. split; [|exact Hframe].
    rewrite record_delete_first; [exact Hu'|].
    intros d. now apply other_key_no_match.
  - apply keeps_discard, keeps_toArray.
  - apply keeps_discard, keeps_getUnresolvableTransactionsDueForRetry.
  - apply Z.leb_le in Hc.
    apply keeps_bind; [|intros _]; apply keeps_storage; intros s H;
      cbn [final_state set_docs get_docs unresolvableTransactionCollection];
      [|exact H].
    destruct H as (u' & Hu' & Hframe). exists u'. split; [|exact Hframe].
    rewrite record_delete_all; [exact Hu'|].
    intros d. now apply later_no_match.
Qed.

Lemma after_calls_record (self : Self) (env : Env) (t : Transaction)
    (u : document) (calls : list call) (s : State) :
  forallb (spares t) calls = true ->
  record_kept t u (unresolvableTransactionCollection s) ->
  record_kept t u (unresolvableTransactionCollection (after_calls self env calls s)).
Proof.
  revert s. induction calls as [|c calls IH]; intros s Hcalls H; [exact H|].
  cbn [forallb] in Hcalls. apply andb_true_iff in Hcalls as [Hc Hcalls].
  cbn [after_calls fold_left]. apply IH; [exact Hcalls|].
  now apply keeps_record.
Qed.

(** C10.  A repeated call of [recordUnresolvableTransactionFetchAttempt] on
    an existing record sets [retryAttempts] and [nextRetryTime] on it and
    nothing else.  And for as long as the record is in the store, that is
    over every sequence of calls that neither removes it, truncates below
    its transaction number nor resets the store, it keeps the value of every
    other field: [firstFetchTime], [transactionTime], [transactionNumber],
    [anchorFileHash], [transactionTimeHash] and any other field are those
    the record had. *)
Theorem retry_updates_only_retry_fields
    (self : Self) (env : Env) (s : State) (t : Transaction) (u : document) :
  unresolvable_record t (unresolvableTransactionCollection s) = Some u ->
  (fault_free env ->
   exists s' retryAttempts nextRetryTime,
     recordUnresolvableTransactionFetchAttempt self t env s = Returned tt s' /\
     unresolvable_record t (unresolvableTransactionCollection s') =
       Some (<["nextRetryTime" := nextRetryTime]>
               (<["retryAttempts" := retryAttempts]> u)) /\
     transactionCollection s' = transactionCollection s) /\
  (forall calls,
     forallb (spares t) calls = true ->
     exists u',
       unresolvable_record t
         (unresolvableTransactionCollection (after_calls self env calls s)) = Some u' /\
       same_but_retry u u' /\
       u' !! "firstFetchTime" = u !! "firstFetchTime" /\
       u' !! "transactionTime" = u !! "transactionTime" /\
       u' !! "transactionNumber" = u !! "transactionNumber" /\
       u' !! "anchorFileHash" = u !! "anchorFileHash" /\
       u' !! "transactionTimeHash" = u !! "transactionTimeHash").
Proof.
  intros Hu. split.
  - intros Hfree.
    rewrite recordUnresolvableTransactionFetchAttempt_ok by apply Hfree.
    rewrite Hu. eexists _, _, _. split; [reflexivity|].
    cbn [unresolvableTransactionCollection transactionCollection].
    split; [|reflexivity].
    unfold unresolvable_record in *.
    rewrite (update_first_head _ _ _ u Hu).
    + unfold retry_fields. now rewrite set_fields_two.
    + rewrite retry_fields_matches.
      apply head_Some_elem_of, list_elem_of_In, filter_In in Hu. tauto.
  - intros calls Hcalls.
    destruct (after_calls_record self env t u calls s Hcalls) as (u' & Hu' & Hframe).
    { exists u. split; [exact Hu|apply same_but_retry_refl]. }
    exists u'. split; [exact Hu'|]. split; [exact Hframe|].
    repeat split; apply Hframe; discriminate.
Qed.

Lemma retry_updates_only_retry_fields_witness :
  exists u' : document,
    unresolvable_record Samples.txA
      (unresolvableTransactionCollection
         (after_calls (constructor None) Samples.quiet_env sparing_calls
            Samples.backlog)) = Some u' /\
    u' !! "firstFetchTime" = Some (VNum 1567296000000) /\
    u' !! "anchorFileHash" = Some (VStr "anchor-A").
Proof.
  destruct (retry_updates_only_retry_fields (constructor None) Samples.quiet_env
              Samples.backlog Samples.txA
              (newUnresolvableTransaction Samples.txA 1567296000000 1567296000001)
              eq_refl) as [_ Hcalls].
  destruct (Hcalls sparing_calls eq_refl)
    as (u' & Hrec & _ & Hfirst & _ & _ & Hanchor & _).
  exists u'. split; [exact Hrec|]. split; [exact Hfirst|exact Hanchor].
Defined.

(** After those calls the record of [txA] has been retried twice. *)
Example sparing_calls_outcome :
  (fun u : document => (u !! "retryAttempts", u !! "nextRetryTime"))
    <$> unresolvable_record Samples.txA
          (unresolvableTransactionCollection
             (after_calls (constructor None) Samples.quiet_env sparing_calls
                Samples.backlog))
  = Some (Some (VNum 2), Some (VNum (1567296000000 + 2 * 60000))).
Proof. reflexivity. Qed.

End RetryFrame.

(** ** Fee rules *)

Module FeeRules.
Import FeeManager.

(** The expectations of [tests/core/FeeManager.spec.ts] on that rule. *)
Example spec_ts_markup :
  convertNormalizedFeeToTransactionFee one_percent_per_operation 100 100 5 = inr 105.
Proof. reflexivity. Qed.

Example spec_ts_at_least_normalized :
  convertNormalizedFeeToTransactionFee one_percent_per_operation 100 1 5 = inr 105.
Proof. reflexivity. Qed.

Example spec_ts_fee_paid_enough :
  verifyTransactionFeeAndThrowOnError one_percent_per_operation 105 100 100 = inr tt /\
  verifyTransactionFeeAndThrowOnError one_percent_per_operation 100 100 100 = inr tt.
Proof. split; reflexivity. Qed.

Example spec_ts_fee_paid_invalid :
  verifyTransactionFeeAndThrowOnError one_percent_per_operation 100 1000 100
  = inl TransactionFeePaidInvalid.
Proof. reflexivity. Qed.

Example spec_ts_fee_paid_below_normalized :
  verifyTransactionFeeAndThrowOnError one_percent_per_operation 99 10 100
  = inl TransactionFeePaidLessThanNormalizedFee.
Proof. reflexivity. Qed.

(** C7.  Whatever the quantization rule, as long as it does not lift the
    fee of 100 operations or of 1 operation above the normalized rate of
    100, [convertNormalizedFeeToTransactionFee(100, 100, 5)] and
    [convertNormalizedFeeToTransactionFee(100, 1, 5)] both return exactly
    105: the quantized fee is the normalized rate, 100, and the 5% markup is
    applied to it. *)
Theorem fee_floors_at_normalized_rate_then_markup (scaledFee : Z -> Z -> Z) :
  scaledFee 100 100 <= 100 ->
  scaledFee 100 1 <= 100 ->
  quantizedFee scaledFee 100 100 = 100 /\
  quantizedFee scaledFee 100 1 = 100 /\
  convertNormalizedFeeToTransactionFee scaledFee 100 100 5 = inr 105 /\
  convertNormalizedFeeToTransactionFee scaledFee 100 1 5 = inr 105.
Proof.
  intros H100 H1.
  assert (Q100 : quantizedFee scaledFee 100 100 = 100)
    by (unfold quantizedFee; lia).
  assert (Q1 : quantizedFee scaledFee 100 1 = 100)
    by (unfold quantizedFee; lia).
  unfold convertNormalizedFeeToTransactionFee.
  rewrite Q100, Q1. repeat split; reflexivity.
Qed.

(** C8.  For every rule, rate, paid fee and markup, a count of operations
    that is zero or negative makes both
    [convertNormalizedFeeToTransactionFee] and
    [verifyTransactionFeeAndThrowOnError] fail with
    [OperationCountLessThanZero], and the failure is the result the caller
    gets. *)
Theorem nonpositive_operation_count_rejected
    (scaledFee : Z -> Z -> Z)
    (normalizedFee transactionFeePaid feeMarkupPercentage numberOfOperations : Z) :
  numberOfOperations <= 0 ->
  convertNormalizedFeeToTransactionFee scaledFee normalizedFee numberOfOperations
    feeMarkupPercentage = inl OperationCountLessThanZero /\
  verifyTransactionFeeAndThrowOnError scaledFee transactionFeePaid
    numberOfOperations normalizedFee = inl OperationCountLessThanZero.
Proof.
  intros Hcount.
  unfold verifyTransactionFeeAndThrowOnError, convertNormalizedFeeToTransactionFee.
  apply Z.leb_le in Hcount. rewrite Hcount. split; reflexivity.
Qed.

Lemma fee_floors_at_normalized_rate_then_markup_witness :
  convertNormalizedFeeToTransactionFee one_percent_per_operation 100 100 5 = inr 105 /\
  convertNormalizedFeeToTransactionFee one_percent_per_operation 100 1 5 = inr 105.
Proof.
  destruct (fee_floors_at_normalized_rate_then_markup one_percent_per_operation)
    as (_ & _ & H100 & H1).
  - vm_compute. discriminate.
  - vm_compute. discriminate.
  - split; [exact H100|exact H1].
Defined.

Lemma nonpositive_operation_count_rejected_witness :
  (convertNormalizedFeeToTransactionFee one_percent_per_operation 100 0 5
     = inl OperationCountLessThanZero /\
   convertNormalizedFeeToTransactionFee one_percent_per_operation 100 (-1) 5
     = inl OperationCountLessThanZero) /\
  (verifyTransactionFeeAndThrowOnError one_percent_per_operation 101 0 10
     = inl OperationCountLessThanZero /\
   verifyTransactionFeeAndThrowOnError one_percent_per_operation 101 (-1) 10
     = inl OperationCountLessThanZero).
Proof.
  split; split.
  - apply (nonpositive_operation_count_rejected one_percent_per_operation 100 101 5 0).
    lia.
  - apply (nonpositive_operation_count_rejected one_percent_per_operation 100 101 5 (-1)).
    lia.
  - apply (nonpositive_operation_count_rejected one_percent_per_operation 10 101 5 0).
    lia.
  - apply (nonpositive_operation_count_rejected one_percent_per_operation 10 101 5 (-1)).
    lia.
Defined.

End FeeRules.

(** ** The commit of a batching cycle *)

Module BatchCycle.
Import BatchWriter.










End BatchCycle.

(** * The rest of the store

    The methods of [lib/MongoDbTransactionStore.ts] not treated above, and
    how the methods of the store work together. *)

(** ** The last transaction *)

Module LastTransaction.
Import Mongo World MongoDbTransactionStore Notions Samples MongoFacts WorldFacts.
Import StoreReads.

Global Instance sort_ge_total (spec : list string) : Total (sort_ge spec).
Proof. intros d1 d2. unfold sort_ge. destruct (total (sort_le spec) d1 d2); auto. Qed.

Global Instance sort_ge_trans (spec : list string) : Transitive (sort_ge spec).
Proof. intros d1 d2 d3 H12 H23. unfold sort_ge in *. now transitivity d2. Qed.

Lemma sort_le_refl (spec : list string) (d : document) : sort_le spec d d.
Proof.
  unfold sort_le. induction spec as [|k ks IH]; cbn [sort_compare]; [discriminate|].
  now rewrite field_compare_refl.
Qed.

Lemma sort_compare_eq_key (d1 d2 : document) :
  sort_compare ["transactionTime"; "transactionNumber"] d1 d2 = Eq ->
  index_key d1 = index_key d2.
Proof.
  cbn [sort_compare]. unfold index_key.
  destruct (field_compare (d1 !! "transactionTime") (d2 !! "transactionTime")) eqn:E1;
    try discriminate.
  destruct (field_compare (d1 !! "transactionNumber") (d2 !! "transactionNumber")) eqn:E2;
    try discriminate.
  intros _. apply field_compare_eq in E1, E2. congruence.
Qed.

Lemma sort_le_antisym_key (d1 d2 : document) :
  sort_le ["transactionTime"; "transactionNumber"] d1 d2 ->
  sort_le ["transactionTime"; "transactionNumber"] d2 d1 ->
  index_key d1 = index_key d2.
Proof.
  unfold sort_le. intros H12 H21. apply sort_compare_eq_key.
  rewrite (sort_compare_antisym _ d2 d1) in H21.
  destruct (sort_compare _ d1 d2); [reflexivity|exfalso; now apply H21|congruence].
Qed.

Lemma unique_keys_inj (l : list document) (d1 d2 : document) :
  unique_keys l -> d1 ∈ l -> d2 ∈ l -> index_key d1 = index_key d2 -> d1 = d2.
Proof.
  unfold unique_keys. intros Hnd H1 H2 Hk.
  apply list_elem_of_lookup in H1 as [i Hi], H2 as [j Hj].
  assert (i = j).
  { eapply NoDup_lookup; [exact Hnd| |];
      rewrite list_lookup_fmap; [rewrite Hi|rewrite Hj]; cbn; [reflexivity|].
    now rewrite Hk. }
  subst j. congruence.
Qed.

(** In the order of the log, on documents whose two key fields are
    numbers. *)
Lemma sort_le_pair_le (d1 d2 : document) (t1 n1 t2 n2 : Z) :
  d1 !! "transactionTime" = Some (VNum t1) ->
  d1 !! "transactionNumber" = Some (VNum n1) ->
  d2 !! "transactionTime" = Some (VNum t2) ->
  d2 !! "transactionNumber" = Some (VNum n2) ->
  sort_le ["transactionTime"; "transactionNumber"] d1 d2 <-> pair_le t1 n1 t2 n2.
Proof.
  intros Ht1 Hn1 Ht2 Hn2. unfold sort_le, pair_le. cbn [sort_compare].
  rewrite Ht1, Hn1, Ht2, Hn2. cbn [field_compare].
  destruct (Z.compare_spec t1 t2) as [Et|Et|Et];
    destruct (Z.compare_spec n1 n2) as [En|En|En];
    split; intros Hle; try congruence; try lia; try discriminate.
Qed.

Lemma StronglySorted_head {A} (R : relation A) (l : list A) (x y : A) :
  StronglySorted R l -> head l = Some x -> y ∈ l -> x = y \/ R x y.
Proof.
  intros Hs Hx Hy. destruct l as [|a l]; [discriminate|].
  injection Hx as ->. apply StronglySorted_inv in Hs as [_ Hall].
  apply elem_of_cons in Hy as [->|Hy]; [now left|right].
  rewrite List.Forall_forall in Hall. apply Hall, list_elem_of_In, Hy.
Qed.

Lemma StronglySorted_last {A} (R : relation A) (l : list A) (x y : A) :
  StronglySorted R l -> last l = Some x -> y ∈ l -> x = y \/ R y x.
Proof.
  induction 1 as [|a l Hs IH Hall]; [discriminate|].
  intros Hx Hy. destruct l as [|b l].
  - injection Hx as ->. apply list_elem_of_singleton in Hy. now left.
  - change (last (a :: b :: l)) with (last (b :: l)) in Hx.
    apply elem_of_cons in Hy as [->|Hy]; [|now apply IH].
    right. rewrite List.Forall_forall in Hall.
    apply Hall, list_elem_of_In, last_Some_elem_of, Hx.
Qed.

Lemma read_last_head (s : State) :
  read_last s =
  option_list
    (head (sort_docs_descending ["transactionTime"; "transactionNumber"]
             (transactionCollection s))).
Proof.
  unfold read_last, limit_docs. cbn [Z.eqb Z.abs_nat Z.abs Z.to_nat Pos.to_nat
    Pos.iter_op Init.Nat.add].
  rewrite (List.forallb_filter_id (matches [])) by now apply forallb_forall.
  now destruct (sort_docs_descending _ _).
Qed.

Lemma getLastTransaction_ok (env : Env) (s : State) :
  fault_at env (ops s) = None ->
  getLastTransaction env s =
  Returned
    (head (sort_docs_descending ["transactionTime"; "transactionNumber"]
             (transactionCollection s)))
    (count_op s).
Proof.
  intros Hfault. unfold getLastTransaction, bind.
  rewrite storage_ok by exact Hfault.
  replace (read_last (count_op s)) with (read_last s) by reflexivity.
  rewrite read_last_head.
  now destruct (head _).
Qed.

Lemma sort_docs_descending_perm (spec : list string) (l : list document) :
  sort_docs_descending spec l ≡ₚ l.
Proof. apply merge_sort_Permutation. Qed.

Lemma sort_docs_descending_sorted (spec : list string) (l : list document) :
  StronglySorted (sort_ge spec) (sort_docs_descending spec l).
Proof. apply StronglySorted_merge_sort; apply _. Qed.

(** The head of the descending order is a stored document that every
    stored document precedes. *)
Lemma descending_head_greatest (spec : list string) (l : list document) :
  match head (sort_docs_descending spec l) with
  | None => l = []
  | Some last => last ∈ l /\ forall d, d ∈ l -> sort_le spec d last
  end.
Proof.
  destruct (head (sort_docs_descending spec l)) as [last|] eqn:Hhead.
  - split.
    + rewrite <- (sort_docs_descending_perm spec l).
      now apply head_Some_elem_of.
    + intros d Hd. rewrite <- (sort_docs_descending_perm spec l) in Hd.
      destruct (StronglySorted_head _ _ last d
                  (sort_docs_descending_sorted spec l) Hhead Hd) as [->|H];
        [apply sort_le_refl|exact H].
  - apply head_None in Hhead. symmetry. apply Permutation_nil_l.
    rewrite <- Hhead. apply sort_docs_descending_perm.
Qed.

(** X1.  With its storage call carried out, [getLastTransaction] returns
    [undefined] exactly when no transaction is stored; otherwise it returns
    a stored transaction that no stored transaction comes after in the order
    of [(transactionTime, transactionNumber)]: its pair is the greatest.
    The store is left as it was. *)
Theorem getLastTransaction_greatest (env : Env) (s : State) :
  fault_at env (ops s) = None ->
  let spec := ["transactionTime"; "transactionNumber"] in
  exists result,
    getLastTransaction env s = Returned result (count_op s) /\
    (result = None <-> transactionCollection s = []) /\
    (forall last, result = Some last ->
       last ∈ transactionCollection s /\
       (forall d, d ∈ transactionCollection s -> sort_le spec d last) /\
       (forall d t n tl nl,
          d ∈ transactionCollection s ->
          d !! "transactionTime" = Some (VNum t) ->
          d !! "transactionNumber" = Some (VNum n) ->
          last !! "transactionTime" = Some (VNum tl) ->
          last !! "transactionNumber" = Some (VNum nl) ->
          pair_le t n tl nl)).
Proof.
  intros Hfault spec. rewrite getLastTransaction_ok by exact Hfault.
  fold spec.
  pose proof (descending_head_greatest spec (transactionCollection s)) as H.
  set (result := head (sort_docs_descending spec (transactionCollection s))) in *.
  exists result. split; [reflexivity|].
  destruct result as [last|].
  - destruct H as [Hin Hmax]. split.
    + split; [intros [=]|]. intros Hnil. rewrite Hnil in Hin.
      now apply not_elem_of_nil in Hin.
    + intros last' [= <-]. split; [exact Hin|]. split; [exact Hmax|].
      intros d t n tl nl Hd Ht Hn Htl Hnl.
      apply (sort_le_pair_le d last t n tl nl Ht Hn Htl Hnl). now apply Hmax.
  - split; [tauto|]. intros last [=].
Qed.

Lemma getLastTransaction_greatest_witness :
  exists last : document,
    getLastTransaction Samples.quiet_env Samples.ledger
      = Returned (Some last) (count_op Samples.ledger) /\
    last ∈ transactionCollection Samples.ledger.
Proof.
  pose proof (getLastTransaction_greatest Samples.quiet_env Samples.ledger eq_refl)
    as H.
  cbv zeta in H. destruct H as (result & Hrun & Hnone & Hsome).
  destruct result as [last|].
  - exists last. split; [exact Hrun|]. now apply Hsome.
  - exfalso. destruct Hnone as [Hnil _]. specialize (Hnil eq_refl). discriminate Hnil.
Defined.

(** The last transaction of the sample ledger. *)
Example last_of_ledger :
  match getLastTransaction Samples.quiet_env Samples.ledger with
  | Returned (Some last) _ => last !! "transactionTime" = Some (VNum 593005)
  | _ => False
  end.
Proof. vm_compute. reflexivity. Qed.

Lemma getExponentiallySpacedTransactions_ok (env : Env) (s : State) :
  fault_at env (ops s) = None ->
  let sorted :=
    sort_docs ["transactionTime"; "transactionNumber"] (transactionCollection s) in
  getExponentiallySpacedTransactions env s =
  Returned
    (omap (fun j => sorted !! (length sorted - 2 ^ j)%nat)
       (seq 0 (sample_count (length sorted))))
    (count_op s).
Proof.
  intros Hfault sorted.
  unfold getExponentiallySpacedTransactions, bind.
  rewrite toArray_ok by assumption.
  rewrite read_cursor_count_op. unfold read_cursor, ret, find, sort.
  cbn [c_from c_filter c_sort c_limit get_docs].
  rewrite Checkpoints.filter_matches_all. fold sorted.
  pose proof (Checkpoints.spaced_loop_from sorted (S (length sorted)) 0 []) as Hloop.
  change (2 ^ Z.of_nat 0) with 1 in Hloop.
  rewrite Hloop, Checkpoints.filter_in_range_seq
    by apply Checkpoints.sample_count_le.
  reflexivity.
Qed.

Lemma first_sample_is_last_sorted (sorted : list document) :
  head (omap (fun j => sorted !! (length sorted - 2 ^ j)%nat)
          (seq 0 (sample_count (length sorted))))
  = last sorted.
Proof.
  rewrite last_lookup.
  destruct sorted as [|d sorted]; [reflexivity|].
  cbn [sample_count length]. cbn [seq omap list_omap].
  replace (S (length sorted) - 2 ^ 0)%nat with (Nat.pred (S (length sorted)))
    by (cbn; lia).
  destruct ((d :: sorted) !! Nat.pred (S (length sorted))) eqn:E; [reflexivity|].
  apply lookup_ge_None in E. cbn in E. lia.
Qed.

(** X2.  On a store whose transactions have distinct pairs, the first of
    the exponentially spaced transactions is the last transaction: what
    [getLastTransaction] returns is the head of what
    [getExponentiallySpacedTransactions] returns on the same store. *)
Theorem first_checkpoint_is_last_transaction (env : Env) (s : State) :
  fault_at env (ops s) = None ->
  unique_keys (transactionCollection s) ->
  exists samples,
    getExponentiallySpacedTransactions env s = Returned samples (count_op s) /\
    getLastTransaction env s = Returned (head samples) (count_op s).
Proof.
  intros Hfault Huniq.
  pose proof (getExponentiallySpacedTransactions_ok env s Hfault) as Hrun.
  cbv zeta in Hrun. rewrite Hrun, getLastTransaction_ok by exact Hfault.
  eexists. split; [reflexivity|]. f_equal.
  rewrite first_sample_is_last_sorted.
  set (spec := ["transactionTime"; "transactionNumber"]).
  set (l := transactionCollection s) in *.
  pose proof (descending_head_greatest spec l) as Hdesc.
  destruct (head (sort_docs_descending spec l)) as [top|].
  - destruct Hdesc as [Htop Hmax].
    destruct (last (sort_docs spec l)) as [bottom|] eqn:Hlast.
    + f_equal.
      assert (Hbottom : bottom ∈ l).
      { rewrite <- (sort_docs_perm spec l). now apply last_Some_elem_of. }
      apply (unique_keys_inj l top bottom Huniq Htop Hbottom).
      apply sort_le_antisym_key; [|now apply Hmax].
      rewrite <- (sort_docs_perm spec l) in Htop.
      destruct (StronglySorted_last _ _ bottom top (sort_docs_sorted spec l)
                  Hlast Htop) as [->|H]; [apply sort_le_refl|exact H].
    + apply last_None in Hlast. exfalso.
      rewrite <- (sort_docs_perm spec l), Hlast in Htop.
      now apply not_elem_of_nil in Htop.
  - rewrite Hdesc. reflexivity.
Qed.

Lemma index_key_transaction_document (t : Transaction) :
  index_key (transaction_document t)
  = (Some (VNum (transactionTime t)), Some (VNum (transactionNumber t))).
Proof. reflexivity. Qed.

Lemma ledger_unique_keys : unique_keys (transactionCollection Samples.ledger).
Proof.
  unfold unique_keys, Samples.ledger.
  cbn [transactionCollection map fmap list_fmap].
  rewrite !index_key_transaction_document.
  apply (bool_decide_unpack _). vm_compute. reflexivity.
Qed.

Lemma first_checkpoint_is_last_transaction_witness :
  exists samples,
    getExponentiallySpacedTransactions Samples.quiet_env Samples.ledger
      = Returned samples (count_op Samples.ledger) /\
    getLastTransaction Samples.quiet_env Samples.ledger
      = Returned (head samples) (count_op Samples.ledger).
Proof.
  exact (first_checkpoint_is_last_transaction Samples.quiet_env Samples.ledger
           eq_refl ledger_unique_keys).
Defined.

(** X3.  On a store whose transactions have distinct pairs, a transaction
    that comes after every stored one in the order of
    [(transactionTime, transactionNumber)] is, once added, the last
    transaction. *)
Theorem added_latest_is_last (env : Env) (s : State) (t : Transaction) :
  fault_at env (ops s) = None ->
  fault_at env (S (ops s)) = None ->
  unique_keys (transactionCollection s) ->
  (forall d, d ∈ transactionCollection s ->
     sort_compare ["transactionTime"; "transactionNumber"] d
       (transaction_document t) = Lt) ->
  exists s',
    addProcessedTransaction t env s = Returned tt s' /\
    transactionCollection s' = transactionCollection s ++ [transaction_document t] /\
    getLastTransaction env s' = Returned (Some (transaction_document t)) (count_op s').
Proof.
  intros Hf1 Hf2 Huniq Hlater.
  set (spec := ["transactionTime"; "transactionNumber"]) in *.
  set (doc := transaction_document t) in *.
  assert (Hfresh : existsb (same_key doc) (transactionCollection s) = false).
  { apply not_true_iff_false. intros Hex.
    apply existsb_exists in Hex as (d & Hd & Hsame).
    apply RecordTransaction.same_key_true in Hsame.
    apply list_elem_of_In in Hd. specialize (Hlater d Hd).
    assert (Heq : field_compare (d !! "transactionTime") (doc !! "transactionTime") = Eq
                  /\ field_compare (d !! "transactionNumber") (doc !! "transactionNumber") = Eq).
    { unfold index_key in Hsame. injection Hsame as -> ->.
      split; apply field_compare_refl. }
    destruct Heq as [E1 E2]. unfold spec in Hlater. cbn [sort_compare] in Hlater.
    rewrite E1, E2 in Hlater. discriminate. }
  rewrite RecordTransaction.addProcessedTransaction_ok by exact Hf1.
  fold doc. rewrite Hfresh.
  eexists. split; [reflexivity|]. split; [reflexivity|].
  rewrite getLastTransaction_ok by exact Hf2.
  cbn [set_docs count_op transactionCollection]. f_equal.
  set (l := transactionCollection s ++ [doc]).
  assert (Hl : unique_keys l) by now apply RecordTransaction.unique_keys_snoc.
  assert (Hdoc : doc ∈ l) by (apply elem_of_app; right; apply list_elem_of_here).
  pose proof (descending_head_greatest spec l) as Hdesc. fold spec.
  destruct (head (sort_docs_descending spec l)) as [top|].
  - destruct Hdesc as [Htop Hmax]. f_equal.
    apply (unique_keys_inj l top doc Hl Htop Hdoc).
    apply sort_le_antisym_key; [|now apply Hmax].
    apply elem_of_app in Htop as [Htop|Htop].
    + unfold sort_le. fold spec. rewrite (Hlater top Htop). discriminate.
    + apply list_elem_of_singleton in Htop. subst top. apply sort_le_refl.
  - subst l. now destruct (transactionCollection s).
Qed.

Lemma added_latest_is_last_witness :
  exists s',
    addProcessedTransaction (Samples.transaction_at 6) Samples.quiet_env Samples.ledger
      = Returned tt s' /\
    getLastTransaction Samples.quiet_env s'
      = Returned (Some (transaction_document (Samples.transaction_at 6))) (count_op s').
Proof.
  destruct (added_latest_is_last Samples.quiet_env Samples.ledger
              (Samples.transaction_at 6) eq_refl eq_refl ledger_unique_keys)
    as (s' & Hrun & _ & Hlast).
  - intros d Hd. cbn in Hd.
    repeat (apply elem_of_cons in Hd as [->|Hd]; [reflexivity|]).
    now apply not_elem_of_nil in Hd.
  - exists s'. split; [exact Hrun|exact Hlast].
Defined.

End LastTransaction.

(** ** What every method keeps *)

Module StoreInvariants.
Import Mongo World MongoDbTransactionStore Notions Samples MongoFacts WorldFacts.
Import StoreReads.

Section Maintains.
Context {Q : list document -> list document -> Prop}.

Lemma maintains_ret {A} (a : A) : maintains Q (ret a).
Proof. intros env s H. exact H. Qed.


Lemma maintains_bind {A B} (m : M A) (k : A -> M B) :
  maintains Q m -> (forall a, maintains Q (k a)) -> maintains Q (bind m k).
Proof.
  intros Hm Hk env s H. unfold bind.
  specialize (Hm env s H).
  destruct (m env s) as [a s'|e s']; [apply Hk|]; exact Hm.
Qed.


Lemma maintains_Date_now : maintains Q Date_now.
Proof. intros env s H. exact H. Qed.

Lemma maintains_storage {A} (f : State -> Outcome A) :
  (forall s,
     Q (transactionCollection s) (unresolvableTransactionCollection s) ->
     Q (transactionCollection (final_state (f s)))
       (unresolvableTransactionCollection (final_state (f s)))) ->
  maintains Q (storage f).
Proof.
  intros Hf env s H. unfold storage.
  destruct (fault_at env (ops s)); [exact H|]. apply Hf. exact H.
Qed.

Lemma maintains_toArray (c : cursor) : maintains Q (toArray c).
Proof. apply maintains_storage. auto. Qed.


Lemma maintains_discard {A} (m : M A) : maintains Q m -> maintains Q (discard m).
Proof.
  intros H. apply maintains_bind; [exact H|]. intros a. apply maintains_ret.
Qed.

Lemma maintains_getLastTransaction : maintains Q getLastTransaction.
Proof.
  apply maintains_bind; [apply maintains_storage; auto|].
  intros [|d l]; apply maintains_ret.
Qed.

Lemma maintains_reads (self : Self) (c : call) :
  reads_only c = true -> maintains Q (invoke self c).
Proof.
  destruct c; try discriminate; intros _; cbn [invoke];
    apply maintains_discard.
  - apply maintains_toArray.
  - apply maintains_bind; [apply maintains_toArray|]. intros a. apply maintains_ret.
  - apply maintains_toArray.
  - apply maintains_bind; [apply maintains_Date_now|]. intros a.
    apply maintains_toArray.
Qed.

(** What a property of the two collections has to survive for every method
    to keep it: each of the changes a storage call of the store can make. *)
Context (self : Self).
Hypothesis Q_add :
  forall tx un d, Q tx un -> existsb (same_key d) tx = false -> Q (tx ++ [d]) un.
Hypothesis Q_record :
  forall tx un d, Q tx un -> existsb (same_key d) un = false -> Q tx (un ++ [d]).
Hypothesis Q_retry :
  forall tx un q u0, Q tx un -> Q tx (update_first q (retry_fields self u0) un).
Hypothesis Q_remove :
  forall tx un q, Q tx un -> Q tx (delete_first q un).
Hypothesis Q_truncate_unresolvable :
  forall tx un q, Q tx un -> Q tx (delete_all q un).
Hypothesis Q_truncate_transactions :
  forall tx un q, Q tx un -> Q (delete_all q tx) un.
Hypothesis Q_drop_transactions : forall tx un, Q tx un -> Q [] un.
Hypothesis Q_drop_unresolvable : forall tx un, Q tx un -> Q tx [].




End Maintains.







End StoreInvariants.

(** ** What a method touches, and what a rejected call leaves *)

Module StoreEffects.
Import Mongo World MongoDbTransactionStore Notions Samples MongoFacts WorldFacts.
Import StoreReads StoreInvariants.

(** X5.  Whatever the environment does, the reading methods
    ([getProcessedTransactions], [getExponentiallySpacedTransactions],
    [getUnresolvableTransactions], [getUnresolvableTransactionsDueForRetry]
    and [getLastTransaction]) change no document of either collection;
    [addProcessedTransaction] never changes the unresolvable collection;
    [recordUnresolvableTransactionFetchAttempt] and
    [removeUnresolvableTransaction] never change the transaction
    collection. *)
Theorem methods_touch_their_collection_only
    (self : Self) (env : Env) (s : State) :
  (forall c, reads_only c = true ->
     transactionCollection (after_call self env s c) = transactionCollection s /\
     unresolvableTransactionCollection (after_call self env s c)
       = unresolvableTransactionCollection s) /\
  (transactionCollection (final_state (getLastTransaction env s))
     = transactionCollection s /\
   unresolvableTransactionCollection (final_state (getLastTransaction env s))
     = unresolvableTransactionCollection s) /\
  (forall t,
     unresolvableTransactionCollection (after_call self env s (AddProcessedTransaction t))
       = unresolvableTransactionCollection s) /\
  (forall t,
     transactionCollection
       (after_call self env s (RecordUnresolvableTransactionFetchAttempt t))
       = transactionCollection s) /\
  (forall t,
     transactionCollection (after_call self env s (RemoveUnresolvableTransaction t))
       = transactionCollection s).
Proof.
  repeat split.
  - apply (maintains_reads (Q := fun tx _ => tx = transactionCollection s) self c H env s).
    reflexivity.
  - apply (maintains_reads
             (Q := fun _ un => un = unresolvableTransactionCollection s) self c H env s).
    reflexivity.
  - apply (maintains_getLastTransaction
             (Q := fun tx _ => tx = transactionCollection s) env s).
    reflexivity.
  - apply (maintains_getLastTransaction
             (Q := fun _ un => un = unresolvableTransactionCollection s) env s).
    reflexivity.
  - intros t. unfold after_call. cbn [invoke].
    unfold addProcessedTransaction, try_catch, insertOne, storage.
    destruct (fault_at env (ops s)) as [e|].
    + now destruct (bool_decide _).
    + cbn [get_docs count_op transactionCollection].
      destruct (insert_doc _ _) as [e|l]; [destruct (bool_decide _)|]; reflexivity.
  - intros t. unfold after_call. cbn [invoke].
    apply (maintains_bind (Q := fun tx _ => tx = transactionCollection s));
      [apply maintains_toArray| |reflexivity].
    intros found. destruct (head found) as [u0|].
    + apply maintains_storage. auto.
    + apply maintains_bind; [apply maintains_Date_now|]. intros first.
      apply maintains_bind; [apply maintains_Date_now|]. intros next.
      apply maintains_storage. intros s0 H0. cbn [get_docs].
      destruct (insert_doc _ _); exact H0.
  - intros t. unfold after_call. cbn [invoke].
    unfold removeUnresolvableTransaction, deleteOne, storage.
    now destruct (fault_at env (ops s)).
Qed.

(** X6.  When the driver rejects the first storage call of a method, the
    method makes no further call: it throws the very error of the driver and
    both collections are as they were.  The one exception is
    [addProcessedTransaction] on an error whose code is 11000, which it takes
    for a duplicate: it returns normally, and nothing was stored. *)
Theorem first_rejection_reaches_the_caller
    (self : Self) (env : Env) (s : State) (c : call) (e : MongoError) :
  fault_at env (ops s) = Some e ->
  ((forall t, c = AddProcessedTransaction t -> code e <> Some 11000) ->
   exists s',
     invoke self c env s = Thrown e s' /\
     ops s' = S (ops s) /\
     transactionCollection s' = transactionCollection s /\
     unresolvableTransactionCollection s' = unresolvableTransactionCollection s) /\
  (forall t, c = AddProcessedTransaction t -> code e = Some 11000 ->
     invoke self c env s = Returned tt (count_op s)).
Proof.
  intros Hfault. split.
  - intros Hcode.
    destruct c as [t| | |t|t| |n|[n|]|]; cbn [invoke];
      unfold discard, addProcessedTransaction, getProcessedTransactions,
        getExponentiallySpacedTransactions,
        recordUnresolvableTransactionFetchAttempt, removeUnresolvableTransaction,
        getUnresolvableTransactions, getUnresolvableTransactionsDueForRetry,
        removeTransactionsLaterThan, emptyCollections, try_catch, bind, Date_now,
        toArray, insertOne, deleteOne, deleteMany, drop;
      cbn [ops]; rewrite (storage_fault _ _ _ e) by exact Hfault;
      try (eexists; repeat split; reflexivity).
    rewrite bool_decide_eq_true_2 by (now apply (Hcode t)).
    eexists. repeat split; reflexivity.
  - intros t -> Hcode. cbn [invoke].
    unfold addProcessedTransaction, try_catch, insertOne.
    rewrite (storage_fault _ _ _ e) by exact Hfault.
    rewrite bool_decide_eq_false_2; [reflexivity|]. intros H. now apply H.
Qed.

Lemma first_rejection_reaches_the_caller_witness :
  (exists s',
     invoke (constructor None) (RemoveTransactionsLaterThan None)
       Samples.failing_env Samples.backlog = Thrown Samples.connection_closed s' /\
     unresolvableTransactionCollection s'
       = unresolvableTransactionCollection Samples.backlog) /\
  invoke (constructor None) (AddProcessedTransaction Samples.txA)
    (mkEnv Samples.ticking_clock (fun _ => Some duplicateKeyError))
    Samples.fresh_store = Returned tt (count_op Samples.fresh_store).
Proof.
  split.
  - destruct (first_rejection_reaches_the_caller (constructor None)
                Samples.failing_env Samples.backlog
                (RemoveTransactionsLaterThan None) Samples.connection_closed
                eq_refl) as [Hthrown _].
    destruct Hthrown as (s' & Hrun & _ & _ & Hun); [discriminate|].
    exists s'. split; [exact Hrun|exact Hun].
  - destruct (first_rejection_reaches_the_caller (constructor None)
                (mkEnv Samples.ticking_clock (fun _ => Some duplicateKeyError))
                Samples.fresh_store (AddProcessedTransaction Samples.txA)
                duplicateKeyError eq_refl) as [_ Hswallowed].
    exact (Hswallowed Samples.txA eq_refl eq_refl).
Defined.

Lemma methods_touch_their_collection_only_witness :
  transactionCollection
    (after_call (constructor None) Samples.quiet_env Samples.ledger
       GetExponentiallySpacedTransactions)
  = transactionCollection Samples.ledger.
Proof.
  destruct (methods_touch_their_collection_only (constructor None)
              Samples.quiet_env Samples.ledger) as [Hreads _].
  exact (proj1 (Hreads GetExponentiallySpacedTransactions eq_refl)).
Defined.

End StoreEffects.

(** ** Removing an unresolvable record *)

Module Removal.
Import Mongo World MongoDbTransactionStore Notions Samples MongoFacts WorldFacts.
Import StoreReads.

Lemma removeUnresolvableTransaction_ok (env : Env) (s : State) (t : Transaction) :
  fault_at env (ops s) = None ->
  removeUnresolvableTransaction t env s =
  Returned tt
    (mkState (transactionCollection s)
       (delete_first (by_key (transactionTime t) (transactionNumber t))
          (unresolvableTransactionCollection s))
       (ticks s) (S (ops s))).
Proof.
  intros Hfault. unfold removeUnresolvableTransaction, deleteOne.
  rewrite storage_ok by exact Hfault. reflexivity.
Qed.

Lemma delete_first_absent (t : Transaction) (l : list document) :
  unresolvable_record t l = None ->
  delete_first (by_key (transactionTime t) (transactionNumber t)) l = l.
Proof.
  unfold unresolvable_record.
  induction l as [|x l IH]; cbn [delete_first List.filter]; [reflexivity|].
  destruct (matches _ x); [discriminate|]. intros H. now rewrite IH.
Qed.

Lemma delete_first_removes (t : Transaction) (l : list document) :
  unique_keys l ->
  unresolvable_record t
    (delete_first (by_key (transactionTime t) (transactionNumber t)) l) = None.
Proof.
  unfold unique_keys, unresolvable_record.
  set (q := by_key (transactionTime t) (transactionNumber t)).
  induction l as [|x l IH]; cbn [delete_first]; [reflexivity|].
  rewrite fmap_cons, NoDup_cons. intros [Hx Hl].
  destruct (matches q x) eqn:E.
  - destruct (List.filter (matches q) l) as [|y l'] eqn:Hf; [reflexivity|].
    exfalso. apply Hx.
    assert (Hy : In y (List.filter (matches q) l)) by (rewrite Hf; now left).
    apply filter_In in Hy as [Hy Hm].
    apply Unresolvable.matches_by_key_index in E, Hm.
    rewrite E, <- Hm. apply list_elem_of_fmap_2, list_elem_of_In, Hy.
  - cbn [List.filter]. rewrite E. auto.
Qed.

Lemma delete_first_snoc (t : Transaction) (first next : Z) (l : list document) :
  unresolvable_record t l = None ->
  delete_first (by_key (transactionTime t) (transactionNumber t))
    (l ++ [newUnresolvableTransaction t first next]) = l.
Proof.
  unfold unresolvable_record.
  induction l as [|x l IH]; cbn [app delete_first List.filter].
  - intros _.
    replace (matches _ (newUnresolvableTransaction t first next)) with true;
      [reflexivity|].
    symmetry. apply Unresolvable.matches_by_key. split; reflexivity.
  - destruct (matches _ x); [discriminate|]. intros H. now rewrite IH.
Qed.

(** X7.  With its storage call carried out on a store whose unresolvable
    records have distinct pairs, [removeUnresolvableTransaction] leaves no
    record for the transaction, leaves the record of every transaction with
    another pair as it was, and does not touch the transaction collection;
    when the transaction had no record, nothing changes at all. *)
Theorem removeUnresolvableTransaction_removes
    (env : Env) (s : State) (t : Transaction) :
  fault_at env (ops s) = None ->
  unique_keys (unresolvableTransactionCollection s) ->
  exists s',
    removeUnresolvableTransaction t env s = Returned tt s' /\
    unresolvable_record t (unresolvableTransactionCollection s') = None /\
    transactionCollection s' = transactionCollection s /\
    (forall t',
       (transactionTime t =? transactionTime t')
         && (transactionNumber t =? transactionNumber t') = false ->
       unresolvable_record t' (unresolvableTransactionCollection s')
       = unresolvable_record t' (unresolvableTransactionCollection s)) /\
    (unresolvable_record t (unresolvableTransactionCollection s) = None ->
     unresolvableTransactionCollection s' = unresolvableTransactionCollection s).
Proof.
  intros Hfault Huniq. rewrite removeUnresolvableTransaction_ok by exact Hfault.
  eexists. split; [reflexivity|].
  cbn [transactionCollection unresolvableTransactionCollection].
  split; [now apply delete_first_removes|]. split; [reflexivity|]. split.
  - intros t' Hother. apply RetryFrame.record_delete_first.
    intros d. now apply RetryFrame.other_key_no_match.
  - apply delete_first_absent.
Qed.

Lemma backlog_unique_keys :
  unique_keys (unresolvableTransactionCollection Samples.backlog).
Proof. apply (bool_decide_unpack _). vm_compute. reflexivity. Qed.

Lemma removeUnresolvableTransaction_removes_witness :
  exists s',
    removeUnresolvableTransaction Samples.txA Samples.quiet_env Samples.backlog
      = Returned tt s' /\
    unresolvable_record Samples.txA (unresolvableTransactionCollection s') = None /\
    unresolvable_record Samples.txB (unresolvableTransactionCollection s')
    = unresolvable_record Samples.txB
        (unresolvableTransactionCollection Samples.backlog).
Proof.
  destruct (removeUnresolvableTransaction_removes Samples.quiet_env Samples.backlog
              Samples.txA eq_refl backlog_unique_keys)
    as (s' & Hrun & Hgone & _ & Hothers & _).
  exists s'. split; [exact Hrun|]. split; [exact Hgone|].
  apply Hothers. reflexivity.
Defined.

(** X8.  With the storage calls carried out, recording a transaction that
    had no unresolvable record and then removing it gives back the
    unresolvable collection as it was, document for document; the
    transaction collection is not touched. *)
Theorem record_then_remove_restores
    (self : Self) (env : Env) (s : State) (t : Transaction) :
  fault_free env ->
  unresolvable_record t (unresolvableTransactionCollection s) = None ->
  exists s1 s2,
    recordUnresolvableTransactionFetchAttempt self t env s = Returned tt s1 /\
    removeUnresolvableTransaction t env s1 = Returned tt s2 /\
    unresolvableTransactionCollection s2 = unresolvableTransactionCollection s /\
    transactionCollection s2 = transactionCollection s.
Proof.
  intros Hfree Hnone.
  rewrite Unresolvable.recordUnresolvableTransactionFetchAttempt_ok by apply Hfree.
  rewrite Hnone. eexists _, _. split; [reflexivity|].
  rewrite removeUnresolvableTransaction_ok by apply Hfree.
  split; [reflexivity|].
  cbn [transactionCollection unresolvableTransactionCollection].
  split; [|reflexivity]. now apply delete_first_snoc.
Qed.

Lemma record_then_remove_restores_witness :
  exists s1 s2,
    recordUnresolvableTransactionFetchAttempt (constructor None)
      (Samples.transaction_at 7) Samples.quiet_env Samples.backlog = Returned tt s1 /\
    removeUnresolvableTransaction (Samples.transaction_at 7) Samples.quiet_env s1
      = Returned tt s2 /\
    unresolvableTransactionCollection s2
      = unresolvableTransactionCollection Samples.backlog.
Proof.
  destruct (record_then_remove_restores (constructor None) Samples.quiet_env
              Samples.backlog (Samples.transaction_at 7)
              Unresolvable.quiet_env_fault_free eq_refl)
    as (s1 & s2 & H1 & H2 & Hun & _).
  exists s1, s2. split; [exact H1|]. split; [exact H2|exact Hun].
Defined.

(** X9.  With the storage calls carried out on a store whose unresolvable
    records have distinct pairs, removing the record of a transaction
    resets its backoff: the next failed fetch of the transaction creates a
    new record with [retryAttempts = 0] and the clock's readings as
    [firstFetchTime] and [nextRetryTime], whatever the removed record
    held. *)
Theorem remove_then_record_starts_over
    (self : Self) (env : Env) (s : State) (t : Transaction) :
  fault_free env ->
  unique_keys (unresolvableTransactionCollection s) ->
  exists s1 s2,
    removeUnresolvableTransaction t env s = Returned tt s1 /\
    recordUnresolvableTransactionFetchAttempt self t env s1 = Returned tt s2 /\
    unresolvable_record t (unresolvableTransactionCollection s2)
    = Some (newUnresolvableTransaction t (now_at env (ticks s))
              (now_at env (S (ticks s)))).
Proof.
  intros Hfree Huniq.
  rewrite removeUnresolvableTransaction_ok by apply Hfree.
  eexists _, _. split; [reflexivity|].
  rewrite Unresolvable.recordUnresolvableTransactionFetchAttempt_ok by apply Hfree.
  cbn [transactionCollection unresolvableTransactionCollection ticks ops].
  pose proof (delete_first_removes t (unresolvableTransactionCollection s) Huniq)
    as Hgone.
  rewrite Hgone. split; [reflexivity|].
  cbn [unresolvableTransactionCollection]. unfold unresolvable_record in *.
  rewrite Unresolvable.head_filter_snoc, Hgone.
  replace (matches _ (newUnresolvableTransaction t _ _)) with true; [reflexivity|].
  symmetry. apply Unresolvable.matches_by_key. split; reflexivity.
Qed.

Lemma remove_then_record_starts_over_witness :
  exists s1 s2 (u : document),
    removeUnresolvableTransaction Samples.txA Samples.quiet_env
      Samples.session_store = Returned tt s1 /\
    recordUnresolvableTransactionFetchAttempt (constructor None) Samples.txA
      Samples.quiet_env s1 = Returned tt s2 /\
    unresolvable_record Samples.txA (unresolvableTransactionCollection s2) = Some u /\
    u !! "retryAttempts" = Some (VNum 0).
Proof.
  destruct (remove_then_record_starts_over (constructor None) Samples.quiet_env
              Samples.session_store Samples.txA
              Unresolvable.quiet_env_fault_free)
    as (s1 & s2 & H1 & H2 & Hrec).
  - apply (bool_decide_unpack _). vm_compute. reflexivity.
  - exists s1, s2. eexists. split; [exact H1|]. split; [exact H2|].
    split; [exact Hrec|reflexivity].
Defined.

End Removal.

(** ** Repeated fetch attempts and the retry query *)

Module Backoff.
Import Mongo World MongoDbTransactionStore Notions Samples MongoFacts WorldFacts.




End Backoff.

Module DueRecords.
Import Mongo World MongoDbTransactionStore Notions Samples MongoFacts WorldFacts.




End DueRecords.

(** ** Truncating twice, and after a failure *)

Module TruncateAgain.
Import Mongo World MongoDbTransactionStore Notions Samples MongoFacts WorldFacts.

Lemma filter_filter_and {A} (f g : A -> bool) (l : list A) :
  List.filter f (List.filter g l) = List.filter (fun x => g x && f x) l.
Proof.
  induction l as [|x l IH]; [reflexivity|]. cbn [List.filter].
  destruct (g x); cbn [List.filter andb]; [destruct (f x)|]; now rewrite IH.
Qed.

Lemma filter_pointwise {A} (f g : A -> bool) (l : list A) :
  (forall x, f x = g x) -> List.filter f l = List.filter g l.
Proof.
  intros H. induction l as [|x l IH]; [reflexivity|]. cbn [List.filter].
  now rewrite H, IH.
Qed.

Lemma matches_gt_min (n m : Z) (d : document) :
  matches [("transactionNumber", CGt (Z.min n m))] d
  = matches [("transactionNumber", CGt n)] d
    || matches [("transactionNumber", CGt m)] d.
Proof.
  unfold matches. cbn [forallb fst snd]. rewrite !andb_true_r.
  destruct (d !! "transactionNumber") as [[z| |x]|]; cbn [holds]; try reflexivity.
  destruct (Z.ltb_spec n z), (Z.ltb_spec m z), (Z.ltb_spec (Z.min n m) z);
    cbn [orb]; try reflexivity; lia.
Qed.

Lemma not_later_than_twice (n m : Z) (l : list document) :
  not_later_than m (not_later_than n l) = not_later_than (Z.min n m) l.
Proof.
  unfold not_later_than, delete_all. rewrite filter_filter_and.
  apply filter_pointwise. intros d. now rewrite matches_gt_min, negb_orb.
Qed.

(** X12.  With the storage calls carried out,
    [removeTransactionsLaterThan(n)] followed by
    [removeTransactionsLaterThan(m)] leaves both collections as one call
    with the smaller of the two numbers does; so a second call with the same
    number changes nothing. *)
Theorem truncations_compose (n m : Z) (env : Env) (s : State) :
  fault_free env ->
  exists s1 s2,
    removeTransactionsLaterThan (Some n) env s = Returned tt s1 /\
    removeTransactionsLaterThan (Some m) env s1 = Returned tt s2 /\
    transactionCollection s2
    = not_later_than (Z.min n m) (transactionCollection s) /\
    unresolvableTransactionCollection s2
    = not_later_than (Z.min n m) (unresolvableTransactionCollection s) /\
    (n = m ->
     transactionCollection s2 = transactionCollection s1 /\
     unresolvableTransactionCollection s2 = unresolvableTransactionCollection s1).
Proof.
  intros Hfree.
  rewrite Truncate.removeTransactionsLaterThan_ok by apply Hfree.
  eexists _, _. split; [reflexivity|].
  rewrite Truncate.removeTransactionsLaterThan_ok by apply Hfree.
  split; [reflexivity|].
  cbn [transactionCollection unresolvableTransactionCollection].
  rewrite !not_later_than_twice. split; [reflexivity|]. split; [reflexivity|].
  intros ->. now rewrite Z.min_id.
Qed.

Lemma truncations_compose_witness :
  exists s1 s2,
    removeTransactionsLaterThan (Some (4294967296 * 4)) Samples.quiet_env
      Samples.ledger = Returned tt s1 /\
    removeTransactionsLaterThan (Some (4294967296 * 2)) Samples.quiet_env s1
      = Returned tt s2 /\
    length (transactionCollection s2) = 2%nat.
Proof.
  destruct (truncations_compose (4294967296 * 4) (4294967296 * 2)
              Samples.quiet_env Samples.ledger Unresolvable.quiet_env_fault_free)
    as (s1 & s2 & H1 & H2 & Htx & _).
  exists s1, s2. split; [exact H1|]. split; [exact H2|].
  rewrite Htx. vm_compute. reflexivity.
Defined.

(** X13.  When the driver carries out the first [deleteMany] of
    [removeTransactionsLaterThan(n)] and rejects the second, the call throws
    the driver's error with the unresolvable collection truncated and the
    transaction collection untouched; calling again, with both storage calls
    carried out, leaves both collections as a call that never failed would
    have. *)
Theorem truncation_recovers_after_failure
    (n : Z) (env : Env) (s : State) (e : MongoError) :
  fault_at env (ops s) = None ->
  fault_at env (S (ops s)) = Some e ->
  fault_at env (S (S (ops s))) = None ->
  fault_at env (S (S (S (ops s)))) = None ->
  exists s1 s2,
    removeTransactionsLaterThan (Some n) env s = Thrown e s1 /\
    unresolvableTransactionCollection s1
    = not_later_than n (unresolvableTransactionCollection s) /\
    transactionCollection s1 = transactionCollection s /\
    removeTransactionsLaterThan (Some n) env s1 = Returned tt s2 /\
    unresolvableTransactionCollection s2
    = not_later_than n (unresolvableTransactionCollection s) /\
    transactionCollection s2 = not_later_than n (transactionCollection s).
Proof.
  intros H0 H1 H2 H3.
  set (s1 := mkState (transactionCollection s)
               (not_later_than n (unresolvableTransactionCollection s))
               (ticks s) (S (S (ops s)))).
  assert (Hrun : removeTransactionsLaterThan (Some n) env s = Thrown e s1).
  { unfold removeTransactionsLaterThan, bind, deleteMany.
    rewrite storage_ok by exact H0.
    cbn [set_docs get_docs count_op].
    erewrite storage_fault by exact H1. reflexivity. }
  exists s1. eexists. split; [exact Hrun|]. split; [reflexivity|].
  split; [reflexivity|].
  rewrite Truncate.removeTransactionsLaterThan_ok by assumption.
  split; [reflexivity|].
  cbn [transactionCollection unresolvableTransactionCollection s1].
  rewrite not_later_than_twice, Z.min_id. split; reflexivity.
Qed.

Lemma truncation_recovers_after_failure_witness :
  exists s1 s2,
    removeTransactionsLaterThan (Some (4294967296 * 2)) Scenarios.second_call_rejected
      Samples.ledger = Thrown Samples.connection_closed s1 /\
    transactionCollection s1 = transactionCollection Samples.ledger /\
    removeTransactionsLaterThan (Some (4294967296 * 2)) Scenarios.second_call_rejected s1
      = Returned tt s2 /\
    transactionCollection s2
    = not_later_than (4294967296 * 2) (transactionCollection Samples.ledger).
Proof.
  destruct (truncation_recovers_after_failure (4294967296 * 2)
              Scenarios.second_call_rejected Samples.ledger Samples.connection_closed
              eq_refl eq_refl eq_refl eq_refl)
    as (s1 & s2 & H1 & _ & Htx1 & H2 & _ & Htx2).
  exists s1, s2. split; [exact H1|]. split; [exact Htx1|].
  split; [exact H2|exact Htx2].
Defined.

End TruncateAgain.

(** ** The reads do not depend on the order of insertion *)

Module InsertionOrder.
Import Mongo World MongoDbTransactionStore Notions Samples MongoFacts WorldFacts.
Import StoreReads.

Lemma getProcessedTransactions_ok (env : Env) (s : State) :
  fault_at env (ops s) = None ->
  getProcessedTransactions env s =
  Returned
    (sort_docs ["transactionTime"; "transactionNumber"] (transactionCollection s))
    (count_op s).
Proof.
  intros Hfault. unfold getProcessedTransactions.
  rewrite toArray_ok by assumption.
  rewrite read_cursor_count_op. unfold read_cursor, find, sort.
  cbn [c_from c_filter c_sort c_limit get_docs].
  now rewrite Checkpoints.filter_matches_all.
Qed.

Lemma sort_docs_order_free (l1 l2 : list document) :
  unique_keys l1 -> l1 ≡ₚ l2 ->
  sort_docs ["transactionTime"; "transactionNumber"] l1
  = sort_docs ["transactionTime"; "transactionNumber"] l2.
Proof.
  intros Huniq Hperm.
  apply (StronglySorted_unique_strong
           (sort_le ["transactionTime"; "transactionNumber"])).
  - intros x1 x2 H1 H2 H12 H21.
    apply elem_of_sort_docs in H1, H2. rewrite <- Hperm in H2.
    apply (LastTransaction.unique_keys_inj l1); auto.
    now apply LastTransaction.sort_le_antisym_key.
  - apply sort_docs_sorted.
  - apply sort_docs_sorted.
  - now rewrite !sort_docs_perm.
Qed.

Lemma sort_docs_descending_order_free (l1 l2 : list document) :
  unique_keys l1 -> l1 ≡ₚ l2 ->
  sort_docs_descending ["transactionTime"; "transactionNumber"] l1
  = sort_docs_descending ["transactionTime"; "transactionNumber"] l2.
Proof.
  intros Huniq Hperm.
  apply (StronglySorted_unique_strong
           (sort_ge ["transactionTime"; "transactionNumber"])).
  - intros x1 x2 H1 H2 H12 H21.
    rewrite LastTransaction.sort_docs_descending_perm in H1, H2.
    rewrite <- Hperm in H2.
    apply (LastTransaction.unique_keys_inj l1); auto.
    now apply LastTransaction.sort_le_antisym_key.
  - apply LastTransaction.sort_docs_descending_sorted.
  - apply LastTransaction.sort_docs_descending_sorted.
  - now rewrite !LastTransaction.sort_docs_descending_perm.
Qed.

(** X14.  With their storage call carried out, what
    [getProcessedTransactions], [getExponentiallySpacedTransactions] and
    [getLastTransaction] return is fixed by the set of stored transactions:
    two stores holding the same documents with distinct
    [(transactionTime, transactionNumber)] pairs, inserted in whatever
    order, give the same three results. *)
Theorem reads_ignore_insertion_order (env1 env2 : Env) (s1 s2 : State) :
  fault_at env1 (ops s1) = None ->
  fault_at env2 (ops s2) = None ->
  unique_keys (transactionCollection s1) ->
  transactionCollection s1 ≡ₚ transactionCollection s2 ->
  exists all spaced last,
    getProcessedTransactions env1 s1 = Returned all (count_op s1) /\
    getProcessedTransactions env2 s2 = Returned all (count_op s2) /\
    getExponentiallySpacedTransactions env1 s1 = Returned spaced (count_op s1) /\
    getExponentiallySpacedTransactions env2 s2 = Returned spaced (count_op s2) /\
    getLastTransaction env1 s1 = Returned last (count_op s1) /\
    getLastTransaction env2 s2 = Returned last (count_op s2).
Proof.
  intros H1 H2 Huniq Hperm.
  rewrite !getProcessedTransactions_ok by assumption.
  rewrite !LastTransaction.getExponentiallySpacedTransactions_ok by assumption.
  rewrite !LastTransaction.getLastTransaction_ok by assumption.
  cbv zeta.
  rewrite (sort_docs_order_free _ _ Huniq Hperm).
  rewrite (sort_docs_descending_order_free _ _ Huniq Hperm).
  eexists _, _, _. repeat split; reflexivity.
Qed.

Lemma reads_ignore_insertion_order_witness :
  exists all spaced last,
    getProcessedTransactions Samples.quiet_env Samples.ledger
      = Returned all (count_op Samples.ledger) /\
    getProcessedTransactions Samples.quiet_env Scenarios.ledger_in_order
      = Returned all (count_op Scenarios.ledger_in_order) /\
    getExponentiallySpacedTransactions Samples.quiet_env Samples.ledger
      = Returned spaced (count_op Samples.ledger) /\
    getExponentiallySpacedTransactions Samples.quiet_env Scenarios.ledger_in_order
      = Returned spaced (count_op Scenarios.ledger_in_order) /\
    getLastTransaction Samples.quiet_env Samples.ledger
      = Returned last (count_op Samples.ledger) /\
    getLastTransaction Samples.quiet_env Scenarios.ledger_in_order
      = Returned last (count_op Scenarios.ledger_in_order).
Proof.
  apply (reads_ignore_insertion_order Samples.quiet_env Samples.quiet_env
           Samples.ledger Scenarios.ledger_in_order eq_refl eq_refl
           LastTransaction.ledger_unique_keys).
  unfold Samples.ledger, Scenarios.ledger_in_order. cbn [transactionCollection map].
  set (d1 := transaction_document _). set (d2 := transaction_document _).
  set (d3 := transaction_document _). set (d4 := transaction_document _).
  set (d5 := transaction_document _).
  solve_Permutation.
Defined.

End InsertionOrder.

(** ** Setting up the database: [initialize] *)

Module Setup.
Import Mongo World Notions Samples Database.

Lemma listed_iff (m : gmap string stored) (name : string) :
  name ∈ map fst (map_to_list m) <-> is_Some (m !! name).
Proof.
  change (map fst (map_to_list m)) with ((map_to_list m).*1).
  rewrite list_elem_of_fmap. split.
  - intros ([k c] & -> & Hin). apply elem_of_map_to_list in Hin. now exists c.
  - intros [c Hc]. exists (name, c). split; [reflexivity|].
    now apply elem_of_map_to_list.
Qed.

Lemma driver_ok {A} (f : Db -> Result A) env db :
  fault_at env (db_calls db) = None ->
  driver f env db = f (mkDb (db_collections db) (S (db_calls db))).
Proof. intros H. unfold driver. now rewrite H. Qed.

Lemma driver_fault {A} (f : Db -> Result A) env db e :
  fault_at env (db_calls db) = Some e ->
  driver f env db = Failed e (mkDb (db_collections db) (S (db_calls db))).
Proof. intros H. unfold driver. now rewrite H. Qed.

(** What a run of [createTransactionCollectionIfNotExist] leaves of the
    collections, whatever the driver rejects: nothing changed, or the
    collection, absent before, created with or without its index. *)
Lemma createTransactionCollectionIfNotExist_cases env db :
  let m := db_collections db in
  let m' := db_collections (final_db (createTransactionCollectionIfNotExist env db)) in
  m' = m \/
  (m !! transactionCollectionName = None /\
   (m' = <[transactionCollectionName := mkStored [] []]> m \/
    m' = <[transactionCollectionName := mkStored [] [key_index]]> m)).
Proof.
  cbv zeta.
  unfold createTransactionCollectionIfNotExist, and_then, collectionNames,
    createCollection, createIndex, done, driver, collection.
  destruct (fault_at env (db_calls db)); cbn [final_db db_collections db_calls];
    [now left|].
  destruct (bool_decide_reflect
              (transactionCollectionName ∈ map fst (map_to_list (db_collections db))))
    as [Hin|Hout]; cbn [final_db db_collections db_calls]; [now left|].
  assert (Hnone : db_collections db !! transactionCollectionName = None).
  { apply eq_None_not_Some. now rewrite <- listed_iff. }
  destruct (fault_at env (S (db_calls db))); cbn [final_db db_collections db_calls];
    [now left|].
  rewrite Hnone. cbn [final_db db_collections db_calls].
  destruct (fault_at env (S (S (db_calls db))));
    cbn [final_db db_collections db_calls]; [right; split; [first [exact Hnone|reflexivity]|now left]|].
  right. split; [first [exact Hnone|reflexivity]|]. right.
  rewrite lookup_insert_eq. cbn [default documents indexes app].
  now rewrite insert_insert_eq.
Qed.

Lemma createUnresolvableTransactionCollectionIfNotExist_cases env db :
  let m := db_collections db in
  let m' :=
    db_collections
      (final_db (createUnresolvableTransactionCollectionIfNotExist env db)) in
  m' = m \/
  (m !! unresolvableTransactionCollectionName = None /\
   (m' = <[unresolvableTransactionCollectionName := mkStored [] []]> m \/
    m' = <[unresolvableTransactionCollectionName := mkStored [] [key_index]]> m \/
    m' = <[unresolvableTransactionCollectionName :=
             mkStored [] [key_index; retry_index]]> m)).
Proof.
  cbv zeta.
  unfold createUnresolvableTransactionCollectionIfNotExist, and_then,
    collectionNames, createCollection, createIndex, done, driver, collection.
  destruct (fault_at env (db_calls db)); cbn [final_db db_collections db_calls];
    [now left|].
  destruct (bool_decide_reflect
              (unresolvableTransactionCollectionName
                 ∈ map fst (map_to_list (db_collections db))))
    as [Hin|Hout]; cbn [final_db db_collections db_calls]; [now left|].
  assert (Hnone : db_collections db !! unresolvableTransactionCollectionName = None).
  { apply eq_None_not_Some. now rewrite <- listed_iff. }
  destruct (fault_at env (S (db_calls db))); cbn [final_db db_collections db_calls];
    [now left|].
  rewrite Hnone. cbn [final_db db_collections db_calls].
  destruct (fault_at env (S (S (db_calls db))));
    cbn [final_db db_collections db_calls]; [right; split; [first [exact Hnone|reflexivity]|now left]|].
  rewrite lookup_insert_eq. cbn [default documents indexes app].
  rewrite insert_insert_eq.
  destruct (fault_at env (S (S (S (db_calls db)))));
    cbn [final_db db_collections db_calls];
    [right; split; [first [exact Hnone|reflexivity]|right; now left]|].
  right. split; [first [exact Hnone|reflexivity]|]. right. right.
  rewrite lookup_insert_eq. cbn [default documents indexes app].
  now rewrite insert_insert_eq.
Qed.

Lemma and_then_keeps {A B} (P : Db -> Prop) (m : D A) (k : A -> D B) :
  (forall env db, P db -> P (final_db (m env db))) ->
  (forall a env db, P db -> P (final_db (k a env db))) ->
  forall env db, P db -> P (final_db (and_then m k env db)).
Proof.
  intros Hm Hk env db HP. unfold and_then.
  specialize (Hm env db HP).
  destruct (m env db) as [a db'|e db']; [now apply Hk|exact Hm].
Qed.

Lemma create_transactions_keeps env db name c :
  db_collections db !! name = Some c ->
  db_collections (final_db (createTransactionCollectionIfNotExist env db)) !! name
  = Some c.
Proof.
  intros Hc.
  destruct (createTransactionCollectionIfNotExist_cases env db)
    as [->|[Hnone [-> | ->]]]; [exact Hc| |];
    (rewrite lookup_insert_ne; [exact Hc|]; intros <-; congruence).
Qed.

Lemma create_unresolvable_keeps env db name c :
  db_collections db !! name = Some c ->
  db_collections
    (final_db (createUnresolvableTransactionCollectionIfNotExist env db)) !! name
  = Some c.
Proof.
  intros Hc.
  destruct (createUnresolvableTransactionCollectionIfNotExist_cases env db)
    as [->|[Hnone [-> | [-> | ->]]]]; [exact Hc| | |];
    (rewrite lookup_insert_ne; [exact Hc|]; intros <-; congruence).
Qed.

(** X15.  [initialize] never alters a collection that exists: whatever
    the driver rejects, every collection of the database, with its
    documents and its indexes, is after the call as it was before; in
    particular an existing [transactions] or [unresolvable-transactions]
    collection is taken as it is, and no index is added to it. *)
Theorem initialize_leaves_existing_collections
    (env : Env) (db : Db) (name : string) (c : stored) :
  db_collections db !! name = Some c ->
  db_collections (final_db (initialize env db)) !! name = Some c.
Proof.
  revert env db. unfold initialize.
  apply (and_then_keeps (fun db => db_collections db !! name = Some c)).
  { intros env db Hc. unfold connect, driver.
    now destruct (fault_at env (db_calls db)). }
  intros _.
  apply (and_then_keeps (fun db => db_collections db !! name = Some c)).
  { intros env db. apply create_transactions_keeps. }
  intros transactionCollection.
  apply (and_then_keeps (fun db => db_collections db !! name = Some c)).
  { intros env db. apply create_unresolvable_keeps. }
  intros unresolvableTransactionCollection env db Hc. exact Hc.
Qed.

Lemma initialize_leaves_existing_collections_witness :
  db_collections (final_db (initialize Samples.failing_env Scenarios.shared_database))
    !! "transactions"
  = Some (mkStored [MongoDbTransactionStore.transaction_document Samples.txA] []) /\
  db_collections (final_db (initialize Samples.quiet_env Scenarios.shared_database))
    !! "transactions"
  = Some (mkStored [MongoDbTransactionStore.transaction_document Samples.txA] []).
Proof.
  split.
  - apply (initialize_leaves_existing_collections Samples.failing_env
             Scenarios.shared_database "transactions"). reflexivity.
  - apply (initialize_leaves_existing_collections Samples.quiet_env
             Scenarios.shared_database "transactions"). reflexivity.
Defined.

Lemma createTransactionCollectionIfNotExist_ok env db :
  fault_free env ->
  createTransactionCollectionIfNotExist env db =
  Done transactionCollectionName
    match db_collections db !! transactionCollectionName with
    | Some _ => mkDb (db_collections db) (S (db_calls db))
    | None =>
        mkDb (<[transactionCollectionName := mkStored [] [key_index]]>
                (db_collections db))
          (S (S (S (db_calls db))))
    end.
Proof.
  intros Hfree.
  unfold createTransactionCollectionIfNotExist, and_then, collectionNames,
    createCollection, createIndex, done, collection.
  rewrite driver_ok by apply Hfree.
  cbn [db_collections db_calls].
  destruct (bool_decide_reflect
              (transactionCollectionName ∈ map fst (map_to_list (db_collections db))))
    as [Hin|Hout].
  - apply listed_iff in Hin as [c Hc]. now rewrite Hc.
  - assert (Hnone : db_collections db !! transactionCollectionName = None).
    { apply eq_None_not_Some. now rewrite <- listed_iff. }
    rewrite Hnone. rewrite driver_ok by apply Hfree.
    cbn [db_collections db_calls]. rewrite Hnone.
    rewrite driver_ok by apply Hfree.
    cbn [db_collections db_calls].
    rewrite lookup_insert_eq. cbn [default documents indexes app].
    now rewrite insert_insert_eq.
Qed.

Lemma createUnresolvableTransactionCollectionIfNotExist_ok env db :
  fault_free env ->
  createUnresolvableTransactionCollectionIfNotExist env db =
  Done unresolvableTransactionCollectionName
    match db_collections db !! unresolvableTransactionCollectionName with
    | Some _ => mkDb (db_collections db) (S (db_calls db))
    | None =>
        mkDb (<[unresolvableTransactionCollectionName :=
                  mkStored [] [key_index; retry_index]]>
                (db_collections db))
          (S (S (S (S (db_calls db)))))
    end.
Proof.
  intros Hfree.
  unfold createUnresolvableTransactionCollectionIfNotExist, and_then,
    collectionNames, createCollection, createIndex, done, collection.
  rewrite driver_ok by apply Hfree.
  cbn [db_collections db_calls].
  destruct (bool_decide_reflect
              (unresolvableTransactionCollectionName
                 ∈ map fst (map_to_list (db_collections db))))
    as [Hin|Hout].
  - apply listed_iff in Hin as [c Hc]. now rewrite Hc.
  - assert (Hnone : db_collections db !! unresolvableTransactionCollectionName = None).
    { apply eq_None_not_Some. now rewrite <- listed_iff. }
    rewrite Hnone. rewrite driver_ok by apply Hfree.
    cbn [db_collections db_calls]. rewrite Hnone.
    rewrite driver_ok by apply Hfree.
    cbn [db_collections db_calls].
    rewrite lookup_insert_eq. cbn [default documents indexes app].
    rewrite insert_insert_eq.
    rewrite driver_ok by apply Hfree.
    cbn [db_collections db_calls].
    rewrite lookup_insert_eq. cbn [default documents indexes app].
    now rewrite insert_insert_eq.
Qed.

Lemma names_differ :
  transactionCollectionName <> unresolvableTransactionCollectionName.
Proof. discriminate. Qed.

(** The collections after [initialize], with every driver call carried
    out. *)
Lemma initialize_ok env db :
  fault_free env ->
  exists db',
    initialize env db
    = Done (transactionCollectionName, unresolvableTransactionCollectionName) db' /\
    db_collections db' =
      <[unresolvableTransactionCollectionName :=
          default (mkStored [] [key_index; retry_index])
            (db_collections db !! unresolvableTransactionCollectionName)]>
        (<[transactionCollectionName :=
             default (mkStored [] [key_index])
               (db_collections db !! transactionCollectionName)]>
           (db_collections db)).
Proof.
  intros Hfree. unfold initialize, and_then, connect, done.
  rewrite driver_ok by apply Hfree.
  rewrite createTransactionCollectionIfNotExist_ok by exact Hfree.
  rewrite createUnresolvableTransactionCollectionIfNotExist_ok by exact Hfree.
  eexists. split; [reflexivity|].
  cbn [db_collections db_calls].
  destruct (db_collections db !! transactionCollectionName) as [c1|] eqn:E1;
    cbn [db_collections db_calls default].
  - rewrite (insert_id (db_collections db) transactionCollectionName c1 E1).
    destruct (db_collections db !! unresolvableTransactionCollectionName)
      as [c2|] eqn:E2; cbn [db_collections default]; [|reflexivity].
    now rewrite insert_id.
  - rewrite lookup_insert_ne by apply names_differ.
    destruct (db_collections db !! unresolvableTransactionCollectionName)
      as [c2|] eqn:E2; cbn [db_collections default]; [|reflexivity].
    symmetry. apply insert_id.
    now rewrite lookup_insert_ne by apply names_differ.
Qed.

(** X16.  With every driver call carried out, [initialize] returns the
    handles of [transactions] and [unresolvable-transactions], and both
    exist afterwards: a collection that was absent is created empty, the
    first with the unique index on [(transactionTime, transactionNumber)],
    the second with that index and the index on [nextRetryTime]; no other
    collection of the database is touched. *)
Theorem initialize_sets_up_the_database (env : Env) (db : Db) :
  fault_free env ->
  exists db',
    initialize env db
    = Done (transactionCollectionName, unresolvableTransactionCollectionName) db' /\
    set_up db' /\
    (db_collections db !! transactionCollectionName = None ->
     db_collections db' !! transactionCollectionName
     = Some (mkStored [] [key_index])) /\
    (db_collections db !! unresolvableTransactionCollectionName = None ->
     db_collections db' !! unresolvableTransactionCollectionName
     = Some (mkStored [] [key_index; retry_index])) /\
    (forall name,
       name <> transactionCollectionName ->
       name <> unresolvableTransactionCollectionName ->
       db_collections db' !! name = db_collections db !! name).
Proof.
  intros Hfree. destruct (initialize_ok env db Hfree) as (db' & Hrun & Hm).
  exists db'. split; [exact Hrun|]. rewrite Hm. unfold set_up. rewrite Hm.
  split; [|split; [|split]].
  - rewrite lookup_insert_ne by (symmetry; apply names_differ).
    rewrite !lookup_insert_eq. split; eexists; reflexivity.
  - intros ->. rewrite lookup_insert_ne by (symmetry; apply names_differ).
    now rewrite lookup_insert_eq.
  - intros ->. now rewrite lookup_insert_eq.
  - intros name H1 H2. now rewrite !lookup_insert_ne by congruence.
Qed.

Lemma initialize_sets_up_the_database_witness :
  exists db',
    initialize Samples.quiet_env Scenarios.empty_database
    = Done ("transactions", "unresolvable-transactions") db' /\
    db_collections db' !! "transactions" = Some (mkStored [] [key_index]) /\
    db_collections db' !! "unresolvable-transactions"
    = Some (mkStored [] [key_index; retry_index]).
Proof.
  destruct (initialize_sets_up_the_database Samples.quiet_env
              Scenarios.empty_database Unresolvable.quiet_env_fault_free)
    as (db' & Hrun & _ & Htx & Hun & _).
  exists db'. split; [exact Hrun|]. split; [now apply Htx|now apply Hun].
Defined.

Lemma initialize_set_up env db :
  fault_free env -> set_up db ->
  initialize env db =
  Done (transactionCollectionName, unresolvableTransactionCollectionName)
    (mkDb (db_collections db) (S (S (S (db_calls db))))).
Proof.
  intros Hfree [[c1 H1] [c2 H2]]. unfold initialize, and_then, connect, done.
  rewrite driver_ok by apply Hfree.
  rewrite createTransactionCollectionIfNotExist_ok by exact Hfree.
  cbn [db_collections db_calls]. rewrite H1.
  rewrite createUnresolvableTransactionCollectionIfNotExist_ok by exact Hfree.
  cbn [db_collections db_calls]. rewrite H2. reflexivity.
Qed.

(** X17.  With every driver call carried out, a second [initialize]
    changes nothing: it finds both collections, makes three driver calls
    (the connection and the two listings) and leaves the database's
    collections as the first call left them. *)
Theorem initialize_twice_is_once (env1 env2 : Env) (db : Db) :
  fault_free env1 -> fault_free env2 ->
  exists handles db1 db2,
    initialize env1 db = Done handles db1 /\
    initialize env2 db1 = Done handles db2 /\
    db_collections db2 = db_collections db1 /\
    db_calls db2 = (db_calls db1 + 3)%nat.
Proof.
  intros Hfree1 Hfree2.
  destruct (initialize_ok env1 db Hfree1) as (db1 & Hrun1 & Hm1).
  exists (transactionCollectionName, unresolvableTransactionCollectionName), db1.
  eexists. split; [exact Hrun1|]. split.
  - apply initialize_set_up; [exact Hfree2|]. unfold set_up. rewrite Hm1.
    rewrite lookup_insert_ne by (symmetry; apply names_differ).
    rewrite !lookup_insert_eq. split; eexists; reflexivity.
  - cbn [db_collections db_calls]. split; [reflexivity|lia].
Qed.

Lemma initialize_twice_is_once_witness :
  exists handles db1 db2,
    initialize Samples.quiet_env Scenarios.shared_database = Done handles db1 /\
    initialize Samples.steady_env db1 = Done handles db2 /\
    db_collections db2 = db_collections db1.
Proof.
  destruct (initialize_twice_is_once Samples.quiet_env Samples.steady_env
              Scenarios.shared_database Unresolvable.quiet_env_fault_free
              Unresolvable.steady_env_fault_free)
    as (handles & db1 & db2 & H1 & H2 & Hm & _).
  exists handles, db1, db2. split; [exact H1|]. split; [exact H2|exact Hm].
Defined.

(** X18.  A failure between creating a collection and creating its index
    is never repaired: when the database has no [transactions] collection
    and the driver rejects the [createIndex] call of the first
    [initialize], the call throws and leaves the collection without the
    unique index; a later [initialize], with every driver call carried out,
    returns normally and the collection still has no index. *)
Theorem interrupted_initialize_leaves_no_unique_index
    (env env' : Env) (db : Db) (e : MongoError) :
  db_collections db !! transactionCollectionName = None ->
  fault_at env (db_calls db) = None ->
  fault_at env (S (db_calls db)) = None ->
  fault_at env (S (S (db_calls db))) = None ->
  fault_at env (S (S (S (db_calls db)))) = Some e ->
  fault_free env' ->
  exists db1 handles db2,
    initialize env db = Failed e db1 /\
    db_collections db1 !! transactionCollectionName = Some (mkStored [] []) /\
    initialize env' db1 = Done handles db2 /\
    db_collections db2 !! transactionCollectionName = Some (mkStored [] []).
Proof.
  intros Hnone H0 H1 H2 H3 Hfree.
  set (db1 := mkDb (<[transactionCollectionName := mkStored [] []]>
                      (db_collections db))
                (S (S (S (S (db_calls db)))))).
  assert (Hrun : initialize env db = Failed e db1).
  { unfold initialize, and_then, connect, createTransactionCollectionIfNotExist,
      and_then, collectionNames, createCollection, createIndex, done.
    rewrite driver_ok by exact H0. rewrite driver_ok by exact H1.
    cbn [db_collections db_calls].
    destruct (bool_decide_reflect
                (transactionCollectionName
                   ∈ map fst (map_to_list (db_collections db)))) as [Hin|Hout].
    { apply listed_iff in Hin as [c Hc]. congruence. }
    rewrite driver_ok by exact H2. cbn [db_collections db_calls].
    rewrite Hnone. erewrite driver_fault by exact H3. reflexivity. }
  assert (Htx : db_collections db1 !! transactionCollectionName
                = Some (mkStored [] [])).
  { unfold db1. cbn [db_collections]. now rewrite lookup_insert_eq. }
  destruct (initialize_ok env' db1 Hfree) as (db2 & Hrun2 & Hm2).
  exists db1, (transactionCollectionName, unresolvableTransactionCollectionName), db2.
  split; [exact Hrun|]. split; [exact Htx|]. split; [exact Hrun2|].
  rewrite Hm2, lookup_insert_ne by (symmetry; apply names_differ).
  rewrite lookup_insert_eq, Htx. reflexivity.
Qed.

Lemma interrupted_initialize_leaves_no_unique_index_witness :
  exists db1 handles db2,
    initialize Scenarios.fourth_call_rejected Scenarios.empty_database
    = Failed Samples.connection_closed db1 /\
    initialize Samples.quiet_env db1 = Done handles db2 /\
    db_collections db2 !! "transactions" = Some (mkStored [] []).
Proof.
  destruct (interrupted_initialize_leaves_no_unique_index
              Scenarios.fourth_call_rejected Samples.quiet_env
              Scenarios.empty_database Samples.connection_closed
              eq_refl eq_refl eq_refl eq_refl eq_refl
              Unresolvable.quiet_env_fault_free)
    as (db1 & handles & db2 & H1 & _ & H2 & Htx).
  exists db1, handles, db2. split; [exact H1|]. split; [exact H2|exact Htx].
Defined.

End Setup.
